(** * sportsdata-parser: the normalization layer of [app/parser.py]

    A shallow embedding of [BettingDataParser] (app/parser.py) and of the
    pydantic models it builds (app/models.py), followed by the properties
    of the specification that concern them.

    Python values that reach the parser come out of [json.load]; they are
    modelled by the inductive type [json].  Exceptions are explicit
    ([result]); the two effects of the parser, reading the wall clock
    ([datetime.now()]) and printing a line for a skipped record, are
    threaded through a [world]. *)

From Stdlib Require Import ZArith Floats Ascii String.
From stdpp Require Import gmap strings list fin_maps sorting.

Open Scope Z_scope.

(** ** Values *)

(** What [json.load] returns.  A [str] is kept as its UTF-8 bytes; a
    [dict] is a finite map on strings (the parser only looks keys up, and
    tests a dict for emptiness). *)
#[warnings="-register-all"]
Inductive json : Type :=
  | JNull
  | JBool (b : bool)
  | JInt (z : Z)
  | JFloat (f : float)
  | JStr (s : string)
  | JList (l : list json)
  | JDict (d : gmap string json).

(** The exceptions the parser can meet; all derive from [Exception]. *)
Inductive exn : Type :=
  | AttributeError
  | TypeError
  | KeyError
  | IndexError
  | ValueError
  | OverflowError
  | OSError
  | ValidationError.

Inductive result (A : Type) : Type :=
  | Ok (a : A)
  | Raise (e : exn).
Arguments Ok {A} a.
Arguments Raise {A} e.

#[global] Instance result_ret : MRet result := @Ok.
#[global] Instance result_bind : MBind result := λ A B k r,
  match r with
  | Ok a => k a
  | Raise e => Raise e
  end.
#[global] Instance result_fmap : FMap result := λ A B g r,
  match r with
  | Ok a => Ok (g a)
  | Raise e => Raise e
  end.

(** A naive [datetime], identified with its position on the time line, in
    microseconds. *)
Definition datetime : Type := Z.

(** The world the parser runs in.  [wall] is the last reading of the wall
    clock, [elapsed] the time that passes before each of the coming
    readings (the clock is taken not to be set back while the parser
    runs), and [stdout] the lines printed so far, newest first: one line
    names a skipped record (the value under "I", or 'unknown') and the
    exception that caused the skip. *)
Record world : Type := World {
  wall : datetime;
  elapsed : list N;
  stdout : list (json * exn)
}.

Definition py (A : Type) : Type := world → result A * world.

#[global] Instance py_ret : MRet py := λ A a w, (Ok a, w).
#[global] Instance py_bind : MBind py := λ A B k m w,
  match m w with
  | (Ok a, w') => k a w'
  | (Raise e, w') => (Raise e, w')
  end.

Definition lift {A} (r : result A) : py A := λ w, (r, w).

(** [datetime.now()] *)
Definition datetime_now : py datetime := λ w,
  match elapsed w with
  | [] => (Ok (wall w), w)
  | d :: ds =>
      let t := wall w + Z.of_N d in
      (Ok t, World t ds (stdout w))
  end.

(** [print(f"Error parsing match {ident}: {e}")] *)
Definition print_error (ident : json) (e : exn) : py () := λ w,
  (Ok (), World (wall w) (elapsed w) ((ident, e) :: stdout w)).

(** ** Python's operations on loaded values *)

(** [bool(v)] *)
Definition py_truthy (v : json) : bool :=
  match v with
  | JNull => false
  | JBool b => b
  | JInt z => negb (z =? 0)
  | JFloat f => negb (PrimFloat.eqb f 0%float)
  | JStr s => negb (String.eqb s "")
  | JList l => match l with [] => false | _ => true end
  | JDict d => negb (bool_decide (d = ∅))
  end.

(** [v.get(key, dflt)]: only a dict has the method. *)
Definition py_get (v : json) (key : string) (dflt : json) : result json :=
  match v with
  | JDict d => Ok (default dflt (d !! key))
  | _ => Raise AttributeError
  end.

(** The characters of a [str] kept as UTF-8 bytes: a byte of the form
    10xxxxxx continues the character before it. *)
Definition is_continuation (c : ascii) : bool :=
  let n := N_of_ascii c in ((128 <=? n) && (n <? 192))%N.

Definition starts_with_continuation (s : string) : bool :=
  match s with
  | String c _ => is_continuation c
  | EmptyString => false
  end.

Fixpoint chars (s : string) : list string :=
  match s with
  | EmptyString => []
  | String c s' =>
      match chars s' with
      | h :: t =>
          if starts_with_continuation s' then String c h :: t
          else String c EmptyString :: h :: t
      | [] => [String c EmptyString]
      end
  end.

(** [iter(v)], as a [for] loop starts it: a list yields its elements, a
    dict its keys, a str its characters; nothing else is iterable. *)
Definition py_iter (v : json) : result (list json) :=
  match v with
  | JList l => Ok l
  | JDict d => Ok (JStr <$> (map_to_list d).*1)
  | JStr s => Ok (JStr <$> chars s)
  | _ => Raise TypeError
  end.

(** [v[0]].  The keys of a loaded dict are strings, so [d[0]] finds none. *)
Definition py_first (v : json) : result json :=
  match v with
  | JList (x :: _) => Ok x
  | JList [] => Raise IndexError
  | JStr s => match chars s with c :: _ => Ok (JStr c) | [] => Raise IndexError end
  | JDict _ => Raise KeyError
  | _ => Raise TypeError
  end.

(** The integer a float denotes, when it denotes one. *)
Definition float_to_Z (f : float) : option Z :=
  match Prim2SF f with
  | S754_zero _ => Some 0
  | S754_finite s m e =>
      let a :=
        if 0 <=? e then Some (Z.pos m * 2 ^ e)
        else if Z.pos m mod 2 ^ (- e) =? 0 then Some (Z.pos m / 2 ^ (- e))
        else None in
      (if s then Z.opp else id) <$> a
  | _ => None
  end.

(** [v == n] for an [int] literal [n]: numbers compare by value, and
    [True == 1], [False == 0]; a value of another type is never equal. *)
Definition py_eq_int (v : json) (n : Z) : bool :=
  match v with
  | JInt z => z =? n
  | JFloat f => match float_to_Z f with Some z => z =? n | None => false end
  | JBool b => (if b then 1 else 0) =? n
  | _ => false
  end.

(** [a >= b] on floats (false as soon as one side is NaN). *)
Definition float_ge (a b : float) : bool := PrimFloat.leb b a.

(** ** The models of app/models.py

    Each pydantic class is a record named after it; the fields keep their
    names, in a module of the class's name. *)

Module Team.
Record Team : Type := new {
  name : string;
  id : Z;
  image : option string;
  country : option Z
}.
End Team.
Abbreviation Team := Team.Team.

Module Market.
Record Market : Type := new {
  type : Z;
  outcome : Z;
  odds : float;
  parameter : option float;
  is_main : bool
}.
End Market.
Abbreviation Market := Market.Market.

Module Markets.
Record Markets : Type := new {
  match_result : list Market;
  over_under : list Market;
  handicap : list Market;
  both_teams_score : list Market;
  correct_score : list Market
}.
End Markets.
Abbreviation Markets := Markets.Markets.

Module Weather.
Record Weather : Type := new {
  temperature : option string;
  condition : option string;
  humidity : option string;
  wind_speed : option string;
  pressure : option string;
  precipitation : option string
}.
End Weather.
Abbreviation Weather := Weather.Weather.

Module WinProbabilities.
Record WinProbabilities : Type := new {
  home_win : option float;
  draw : option float;
  away_win : option float
}.
End WinProbabilities.
Abbreviation WinProbabilities := WinProbabilities.WinProbabilities.

Module Match.
Record Match : Type := new {
  id : Z;
  name : string;
  sport : string;
  league : string;
  country : string;
  start_time : datetime;
  home_team : Team;
  away_team : Team;
  venue : option string;
  stage : option string;
  probabilities : option WinProbabilities;
  markets : Markets;
  weather : option Weather;
  is_live : bool;
  event_count : Z
}.
End Match.
Abbreviation Match := Match.Match.

(** ** What the parser takes from its libraries

    pydantic validates the arguments of every model constructor.  An
    argument that already has the type of its field is kept as it is, and
    [None] is refused by a field that is not [Optional]; both are written
    out in the validators below.  How an argument of another type is
    coerced (lax mode) is the library's business and is left as a
    parameter, and so is [datetime.fromtimestamp], whose range depends on
    the platform. *)
Class External : Type := {
  coerce_int : json → option Z;
  coerce_float : json → option float;
  coerce_str : json → option string;
  fromtimestamp : json → result datetime
}.

(** The library that coerces nothing and converts whole seconds. *)
Definition plain : External := {|
  coerce_int := λ _, None;
  coerce_float := λ _, None;
  coerce_str := λ _, None;
  fromtimestamp := λ v,
    match v with
    | JInt z => Ok (z * 1000000)
    | JBool b => Ok (if b then 1000000 else 0)
    | _ => Raise TypeError
    end
|}.

Section Validation.
Context `{External}.

Definition validated {A} (o : option A) : result A :=
  match o with
  | Some a => Ok a
  | None => Raise ValidationError
  end.

(** A field annotated [int] *)
Definition validate_int (v : json) : result Z :=
  match v with
  | JInt z => Ok z
  | JNull => Raise ValidationError
  | _ => validated (coerce_int v)
  end.

(** A field annotated [float] *)
Definition validate_float (v : json) : result float :=
  match v with
  | JFloat f => Ok f
  | JNull => Raise ValidationError
  | _ => validated (coerce_float v)
  end.

(** A field annotated [str] *)
Definition validate_str (v : json) : result string :=
  match v with
  | JStr s => Ok s
  | JNull => Raise ValidationError
  | _ => validated (coerce_str v)
  end.

(** A field annotated [Optional[T]] *)
Definition validate_optional {A} (validate : json → result A) (v : json) : result (option A) :=
  match v with
  | JNull => Ok None
  | _ => Some <$> validate v
  end.

(** [Team(name=.., id=.., image=.., country=..)] *)
Definition Team_init (name id image country : json) : result Team :=
  name ← validate_str name;
  id ← validate_int id;
  image ← validate_optional validate_str image;
  country ← validate_optional validate_int country;
  mret (Team.new name id image country).

(** [Market(type=.., outcome=.., odds=.., parameter=.., is_main=..)];
    [is_main] always receives a [bool]. *)
Definition Market_init (type outcome odds parameter : json) (is_main : bool) : result Market :=
  type ← validate_int type;
  outcome ← validate_int outcome;
  odds ← validate_float odds;
  parameter ← validate_optional validate_float parameter;
  mret (Market.new type outcome odds parameter is_main).

(** [Weather] called on the unpacked [weather_map]: a field whose name is
    not a key of the dict keeps its default, [None]. *)
Definition Weather_init (weather_map : gmap string json) : result Weather :=
  let field (k : string) :=
    match weather_map !! k with
    | Some v => validate_optional validate_str v
    | None => Ok None
    end in
  temperature ← field "temperature";
  condition ← field "condition";
  humidity ← field "humidity";
  wind_speed ← field "wind_speed";
  pressure ← field "pressure";
  precipitation ← field "precipitation";
  mret (Weather.new temperature condition humidity wind_speed pressure precipitation).

(** [WinProbabilities(home_win=.., draw=.., away_win=..)].  The three
    fields are declared with the aliases "P1", "PX", "P2" and the model
    does not populate by name: an argument passed under the field's own
    name is an extra one, which pydantic ignores, and every field keeps
    its default. *)
Definition WinProbabilities_init (home_win draw away_win : json) : result WinProbabilities :=
  Ok (WinProbabilities.new None None None).

(** [Match(id=.., ..., event_count=..)].  The arguments that are model
    instances, the [datetime] and the [bool] pass as they are. *)
Definition Match_init (id name sport league country : json) (start_time : datetime)
    (home_team away_team : Team) (venue stage : json)
    (probabilities : option WinProbabilities) (markets : Markets)
    (weather : option Weather) (is_live : bool) (event_count : json) : result Match :=
  id ← validate_int id;
  name ← validate_str name;
  sport ← validate_str sport;
  league ← validate_str league;
  country ← validate_str country;
  venue ← validate_optional validate_str venue;
  stage ← validate_optional validate_str stage;
  event_count ← validate_int event_count;
  mret (Match.new id name sport league country start_time home_team away_team
          venue stage probabilities markets weather is_live event_count).

End Validation.

(** ** Control *)

(** A [for] loop whose body updates one object and may raise. *)
Fixpoint for_in {S : Type} (body : json → S → result S) (items : list json) (s : S) : result S :=
  match items with
  | [] => Ok s
  | x :: rest => s' ← body x s; for_in body rest s'
  end.

(** [try: body except Exception as e: handler(e)].  What the body did to
    the world before it raised stays done. *)
Definition try_except {A} (body : py A) (handler : exn → py A) : py A := λ w,
  match body w with
  | (Ok a, w') => (Ok a, w')
  | (Raise e, w') => handler e w'
  end.

(** A dict that counts, with the order of insertion that Python keeps:
    [d.get(k, 0)] and [d[k] = n]. *)
Fixpoint dict_get (d : list (string * nat)) (k : string) : nat :=
  match d with
  | [] => 0%nat
  | (k', n) :: d' => if String.eqb k' k then n else dict_get d' k
  end.

Fixpoint dict_set (d : list (string * nat)) (k : string) (n : nat) : list (string * nat) :=
  match d with
  | [] => [(k, n)]
  | (k', n') :: d' => if String.eqb k' k then (k', n) :: d' else (k', n') :: dict_set d' k n
  end.

(** [sorted(items, key=lambda x: x[1], reverse=True)]: the sort is
    stable, also when reversed, so an item goes before the first one of
    the sorted rest whose count is not greater than its own. *)
Fixpoint insert_desc (x : string * nat) (l : list (string * nat)) : list (string * nat) :=
  match l with
  | [] => [x]
  | y :: l' => if (x.2 <? y.2)%nat then y :: insert_desc x l' else x :: y :: l'
  end.

Definition sorted_desc (items : list (string * nat)) : list (string * nat) :=
  foldr insert_desc [] items.

(** ** The parser of app/parser.py *)

Module BettingDataParser.

Record self : Type := new {
  raw_data : json;
  matches : list Match
}.

Section methods.
Context `{External}.

Definition _categorize_market (market : Market) (markets : Markets) : Markets :=
  let market_type := Market.type market in
  if market_type =? 1 then
    Markets.new (Markets.match_result markets ++ [market]) (Markets.over_under markets)
      (Markets.handicap markets) (Markets.both_teams_score markets) (Markets.correct_score markets)
  else if existsb (Z.eqb market_type) [15; 62] then
    Markets.new (Markets.match_result markets) (Markets.over_under markets ++ [market])
      (Markets.handicap markets) (Markets.both_teams_score markets) (Markets.correct_score markets)
  else if existsb (Z.eqb market_type) [2; 17] then
    Markets.new (Markets.match_result markets) (Markets.over_under markets)
      (Markets.handicap markets ++ [market]) (Markets.both_teams_score markets) (Markets.correct_score markets)
  else if market_type =? 19 then
    Markets.new (Markets.match_result markets) (Markets.over_under markets)
      (Markets.handicap markets) (Markets.both_teams_score markets ++ [market]) (Markets.correct_score markets)
  else if market_type =? 8 then
    Markets.new (Markets.match_result markets) (Markets.over_under markets)
      (Markets.handicap markets) (Markets.both_teams_score markets) (Markets.correct_score markets ++ [market])
  else markets.

(** The [Market] of one entry of the primary array (first loop of
    [_parse_markets]). *)
Definition main_market (market_data : json) : result Market :=
  g ← py_get market_data "G" (JInt 0);
  t ← py_get market_data "T" (JInt 0);
  c ← py_get market_data "C" (JFloat 0);
  p ← py_get market_data "P" JNull;
  ce ← py_get market_data "CE" JNull;
  Market_init g t c p (py_eq_int ce 1).

(** The [Market] of one entry of a group of the additional array (second
    loop of [_parse_markets]). *)
Definition additional_market (market_group market_data : json) : result Market :=
  g ← py_get market_group "G" (JInt 0);
  t ← py_get market_data "T" (JInt 0);
  c ← py_get market_data "C" (JFloat 0);
  p ← py_get market_data "P" JNull;
  Market_init g t c p false.

Definition _parse_markets (main_markets additional_markets : json) : result Markets :=
  let markets := Markets.new [] [] [] [] [] in
  entries ← py_iter main_markets;
  markets ← for_in (λ market_data markets,
      market ← main_market market_data;
      mret (_categorize_market market markets)) entries markets;
  groups ← py_iter additional_markets;
  for_in (λ market_group markets,
      me ← py_get market_group "ME" (JList []);
      entries ← py_iter me;
      for_in (λ market_data markets,
          market ← additional_market market_group market_data;
          mret (_categorize_market market markets)) entries markets) groups markets.

Definition _parse_weather (weather_data : json) : result (option Weather) :=
  if negb (py_truthy weather_data) then Ok None
  else
    items ← py_iter weather_data;
    weather_map ← for_in (λ item (weather_map : gmap string json),
        key ← py_get item "K" JNull;
        value ← py_get item "V" JNull;
        mret (if py_eq_int key 9 then <["temperature" := value]> weather_map
              else if py_eq_int key 21 then <["condition" := value]> weather_map
              else if py_eq_int key 27 then <["humidity" := value]> weather_map
              else if py_eq_int key 23 then <["wind_speed" := value]> weather_map
              else if py_eq_int key 25 then <["pressure" := value]> weather_map
              else if py_eq_int key 35 then <["precipitation" := value]> weather_map
              else weather_map)) items ∅;
    if bool_decide (weather_map = ∅) then Ok None
    else Some <$> Weather_init weather_map.

(** [v.get(key) if v else None] *)
Definition get_if (v : json) (key : string) : result json :=
  if py_truthy v then py_get v key JNull else Ok JNull.

(** [match_data.get(key, [None])[0] if match_data.get(key) else None] *)
Definition first_image (match_data : json) (key : string) : result json :=
  c ← py_get match_data key JNull;
  if py_truthy c then
    imgs ← py_get match_data key (JList [JNull]);
    py_first imgs
  else Ok JNull.

Definition _parse_single_match (match_data : json) : py Match :=
  match_id ← lift (py_get match_data "I" JNull);
  name ← lift (py_get match_data "L" (JStr ""));
  sport ← lift (py_get match_data "SE" (JStr ""));
  league ← lift (py_get match_data "LE" (JStr ""));
  country ← lift (py_get match_data "CN" (JStr ""));
  start_timestamp ← lift (py_get match_data "S" (JInt 0));
  start_time ← (if py_truthy start_timestamp then lift (fromtimestamp start_timestamp)
                else datetime_now);
  lift (
    home_team ← (
      n ← py_get match_data "O1" (JStr "");
      i ← py_get match_data "O1I" (JInt 0);
      img ← first_image match_data "O1IMG";
      c ← py_get match_data "O1C" JNull;
      Team_init n i img c);
    away_team ← (
      n ← py_get match_data "O2" (JStr "");
      i ← py_get match_data "O2I" (JInt 0);
      img ← first_image match_data "O2IMG";
      c ← py_get match_data "O2C" JNull;
      Team_init n i img c);
    venue_info ← py_get match_data "MIO" (JDict ∅);
    venue ← get_if venue_info "Loc";
    stage ← get_if venue_info "TSt";
    wp_data ← py_get match_data "WP" (JDict ∅);
    probabilities ← (
      if py_truthy wp_data then
        p1 ← py_get wp_data "P1" JNull;
        px ← py_get wp_data "PX" JNull;
        p2 ← py_get wp_data "P2" JNull;
        Some <$> WinProbabilities_init p1 px p2
      else Ok None);
    e ← py_get match_data "E" (JList []);
    ae ← py_get match_data "AE" (JList []);
    markets ← _parse_markets e ae;
    mis ← py_get match_data "MIS" (JList []);
    weather ← _parse_weather mis;
    ss ← py_get match_data "SS" (JInt 0);
    let is_live := py_eq_int ss 1 in
    event_count ← py_get match_data "EC" (JInt 0);
    Match_init match_id name sport league country start_time home_team away_team
      venue stage probabilities markets weather is_live event_count).

(** The loop of [_parse_matches], from the records still to read and the
    list [matches] built so far. *)
Fixpoint parse_records (records : list json) (matches : list Match) : py (list Match) :=
  match records with
  | [] => mret matches
  | match_data :: rest =>
      matches ← try_except
        (parsed_match ← _parse_single_match match_data;
         mret (matches ++ [parsed_match]))
        (λ e,
         ident ← lift (py_get match_data "I" (JStr "unknown"));
         _ ← print_error ident e;
         mret matches);
      parse_records rest matches
  end.

Definition _parse_matches (raw_data : json) : py (list Match) :=
  value ← lift (py_get raw_data "Value" (JList []));
  records ← lift (py_iter value);
  parse_records records [].

(** [BettingDataParser(api_response)] *)
Definition __init__ (api_response : json) : py self :=
  matches ← _parse_matches api_response;
  mret (new api_response matches).

End methods.

(** [any(market.odds >= min_odds for market in m.markets.match_result)] *)
Definition any_good_odds (min_odds : float) (m : Match) : bool :=
  existsb (λ market, float_ge (Market.odds market) min_odds)
    (Markets.match_result (Match.markets m)).

Definition get_matches_with_good_odds (s : self) (min_odds : float) : list Match :=
  List.filter (any_good_odds min_odds) (matches s).

(** The dict [league_counts] after the loop over the matches. *)
Definition league_counts (ms : list Match) : list (string * nat) :=
  fold_left (λ counts m,
    dict_set counts (Match.league m) (dict_get counts (Match.league m) + 1)%nat) ms [].

(** Each returned dict {"league": .., "count": ..} is kept as the pair
    of its two values. *)
Definition get_popular_leagues (s : self) : list (string * nat) :=
  sorted_desc (league_counts (matches s)).

End BettingDataParser.

Import BettingDataParser.

(** ** Vocabulary of the specification *)

(** The five buckets of a [Markets] object. *)
Inductive bucket : Type :=
  | MatchResult
  | OverUnder
  | Handicap
  | BothTeamsScore
  | CorrectScore.

#[global] Instance bucket_eq_dec : EqDecision bucket.
Proof. solve_decision. Defined.

Definition bucket_of (b : bucket) (markets : Markets) : list Market :=
  match b with
  | MatchResult => Markets.match_result markets
  | OverUnder => Markets.over_under markets
  | Handicap => Markets.handicap markets
  | BothTeamsScore => Markets.both_teams_score markets
  | CorrectScore => Markets.correct_score markets
  end.

(** The table of section 4.2 of the specification, row by row, and the
    classifier the specification reads off it: the category of the row
    that lists the code, no category when no row does. *)
Definition table_4_2 : list (list Z * bucket) :=
  [ ([1], MatchResult);
    ([15; 62], OverUnder);
    ([2; 17], Handicap);
    ([19], BothTeamsScore);
    ([8], CorrectScore) ].

Definition spec_classify (code : Z) : option bucket :=
  snd <$> List.find (λ row, existsb (Z.eqb code) row.1) table_4_2.

(** Filing [market]: bucket [target] of [after] is that of [before] with
    [market] appended, every other bucket is as in [before]; with no
    target all five are as in [before]. *)
Definition filed_in (target : option bucket) (market : Market) (before after : Markets) : Prop :=
  ∀ b, bucket_of b after =
       bucket_of b before ++ (if decide (target = Some b) then [market] else []).

(** The position, in the Dataset, of the first match of a league (the
    size of the Dataset when the league has no match). *)
Fixpoint first_seen (lg : string) (ms : list Match) : nat :=
  match ms with
  | [] => 0%nat
  | m :: ms' => if String.eqb (Match.league m) lg then 0%nat else S (first_seen lg ms')
  end.

(** The number of matches of a league in the Dataset. *)
Definition count_league (lg : string) (ms : list Match) : nat :=
  length (filter (λ m, Match.league m = lg) ms).

(** The order of [league_summary()]: by count, greatest first, and among
    equal counts by first encounter. *)
Definition by_count_then (T : relation (string * nat)) (a b : string * nat) : Prop :=
  (b.2 ≤ a.2)%nat ∧ (a.2 = b.2 → T a b).

Definition summary_order (ms : list Match) : relation (string * nat) :=
  by_count_then (λ a b, (first_seen a.1 ms < first_seen b.1 ms)%nat).

(** [key] is one of the keys of the weather table of [_parse_weather]. *)
Definition is_weather_key (key : json) : bool :=
  existsb (py_eq_int key) [9; 21; 23; 25; 27; 35].

(** The entries of the misc-info list of a record (none when "MIS" is
    absent or is not a list). *)
Definition mis_entries (d : gmap string json) : list json :=
  match d !! "MIS" with
  | Some (JList l) => l
  | _ => []
  end.

Section vocabulary.
Context `{External}.

(** [market] is built from an entry of the primary array [e]. *)
Definition from_primary (e : json) (market : Market) : Prop :=
  ∃ entries entry,
    py_iter e = Ok entries ∧ entry ∈ entries ∧ main_market entry = Ok market.

(** [market] is built from an entry of a group of the additional array
    [ae]. *)
Definition from_additional (ae : json) (market : Market) : Prop :=
  ∃ groups group me entries entry,
    py_iter ae = Ok groups ∧ group ∈ groups ∧
    py_get group "ME" (JList []) = Ok me ∧ py_iter me = Ok entries ∧
    entry ∈ entries ∧ additional_market group entry = Ok market.

(** A record normalizes, whatever the world. *)
Definition normalizes (match_data : json) : Prop :=
  ∀ w, ∃ m w', _parse_single_match match_data w = (Ok m, w').

(** A record fails to normalize, whatever the world. *)
Definition fails (match_data : json) : Prop :=
  ∀ w, ∃ e w', _parse_single_match match_data w = (Raise e, w').


Definition is_Ok {A} (r : result A) : Prop := ∃ a, r = Ok a.

(** What [_parse_single_match] asks of a mapping, field by field. *)
Definition record_ok (d : gmap string json) : Prop :=
  let get key dflt := default dflt (d !! key) in
  is_Ok (validate_int (get "I" JNull)) ∧
  is_Ok (validate_str (get "L" (JStr ""))) ∧
  is_Ok (validate_str (get "SE" (JStr ""))) ∧
  is_Ok (validate_str (get "LE" (JStr ""))) ∧
  is_Ok (validate_str (get "CN" (JStr ""))) ∧
  (py_truthy (get "S" (JInt 0)) = true → is_Ok (fromtimestamp (get "S" (JInt 0)))) ∧
  is_Ok (validate_str (get "O1" (JStr ""))) ∧
  is_Ok (validate_int (get "O1I" (JInt 0))) ∧
  is_Ok (first_image (JDict d) "O1IMG" ≫= validate_optional validate_str) ∧
  is_Ok (validate_optional validate_int (get "O1C" JNull)) ∧
  is_Ok (validate_str (get "O2" (JStr ""))) ∧
  is_Ok (validate_int (get "O2I" (JInt 0))) ∧
  is_Ok (first_image (JDict d) "O2IMG" ≫= validate_optional validate_str) ∧
  is_Ok (validate_optional validate_int (get "O2C" JNull)) ∧
  is_Ok (get_if (get "MIO" (JDict ∅)) "Loc" ≫= validate_optional validate_str) ∧
  is_Ok (get_if (get "MIO" (JDict ∅)) "TSt" ≫= validate_optional validate_str) ∧
  (py_truthy (get "WP" (JDict ∅)) = true → ∃ wp, get "WP" (JDict ∅) = JDict wp) ∧
  is_Ok (_parse_markets (get "E" (JList [])) (get "AE" (JList []))) ∧
  is_Ok (_parse_weather (get "MIS" (JList []))) ∧
  is_Ok (validate_int (get "EC" (JInt 0))).

End vocabulary.

(** ** Sample data *)

Definition obj (items : list (string * json)) : json := JDict (list_to_map items).

(** A record with primary markets, one additional group and weather
    entries. *)
Definition sample_record : json :=
  obj [ ("I", JInt 1); ("L", JStr "A vs B"); ("SE", JStr "Football");
        ("LE", JStr "Premier"); ("CN", JStr "UK"); ("S", JInt 1700000000);
        ("O1", JStr "A"); ("O1I", JInt 10); ("O2", JStr "B"); ("O2I", JInt 20);
        ("E", JList [ obj [("G", JInt 1); ("T", JInt 1); ("C", JFloat 1.5); ("CE", JInt 1)];
                      obj [("G", JInt 1); ("T", JInt 2); ("C", JFloat 3.25)];
                      obj [("G", JInt 1); ("T", JInt 3); ("C", JFloat 4.5); ("CE", JInt 0)];
                      obj [("G", JInt 99); ("T", JInt 7); ("C", JFloat 2)] ]);
        ("AE", JList [ obj [("G", JInt 17);
                            ("ME", JList [ obj [("T", JInt 7); ("C", JFloat 1.75);
                                                ("P", JFloat 0.5); ("CE", JInt 1)] ])] ]);
        ("MIS", JList [ obj [("K", JInt 9); ("V", JStr "21")];
                        obj [("K", JInt 2); ("V", JStr "Stadium")] ]);
        ("SS", JInt 1) ].

(** The record of the end-to-end scenario of the specification. *)
#[warnings="-inexact-float"]
Definition scenario_record : json :=
  obj [ ("I", JInt 1); ("L", JStr "A vs B"); ("SE", JStr "Football");
        ("LE", JStr "Premier"); ("CN", JStr "UK"); ("S", JInt 1700000000);
        ("O1", JStr "A"); ("O1I", JInt 10); ("O2", JStr "B"); ("O2I", JInt 20);
        ("E", JList [ obj [("G", JInt 1); ("T", JInt 1); ("C", JFloat 1.8)];
                      obj [("G", JInt 1); ("T", JInt 2); ("C", JFloat 3.2)];
                      obj [("G", JInt 1); ("T", JInt 3); ("C", JFloat 4.5)] ]);
        ("SS", JInt 1) ].

(** A record that only has an identifier. *)
Definition bare_record (ident : Z) : json := obj [("I", JInt ident)].

(** A world whose clock reads 1000 and moves by 5, then 7. *)
Definition sample_world : world := World 1000 [5%N; 7%N] [].

(** A record of a league, with one match_result price. *)
Definition league_record (ident : Z) (lg : string) (price : float) : json :=
  obj [ ("I", JInt ident); ("LE", JStr lg);
        ("E", JList [ obj [("G", JInt 1); ("T", JInt 1); ("C", JFloat price)] ]) ].

Definition sample_response : json :=
  obj [ ("Error", JStr ""); ("ErrorCode", JInt 0); ("Success", JBool true);
        ("Value", JList [ league_record 1 "Premier" 1.5;
                          league_record 2 "Serie A" 2.5;
                          league_record 3 "Premier" 3.5;
                          league_record 4 "Ligue 1" 1.25;
                          league_record 5 "Serie A" 4 ]) ].

(** The parser made of the sample response. *)
Definition sample_parser : self :=
  match (@__init__ plain sample_response sample_world).1 with
  | Ok p => p
  | Raise _ => new JNull []
  end.

(** A response whose second record is not a mapping. *)
Definition response_with_string : json :=
  obj [ ("Value", JList [bare_record 1; JStr "oops"; bare_record 2]) ].

(** A response whose second record is a mapping without identifier. *)
Definition response_with_bad_mapping : json :=
  obj [ ("Value", JList [bare_record 1; obj [("L", JStr "A vs B")]; bare_record 2]) ].

(** A record whose only weather entry has a key of the table and no
    value. *)
Definition record_weather_no_value : json :=
  obj [ ("I", JInt 1); ("MIS", JList [ obj [("K", JInt 9)] ]) ].

(** The status fields of a response, and nothing else. *)
Definition status_only : gmap string json :=
  list_to_map [ ("Error", JStr ""); ("ErrorCode", JInt 0); ("Success", JBool true) ].

(** ** Letter case

    [str.lower()] works character by character.  An ASCII letter goes to
    its lowercase and any other ASCII character stays, whatever stands
    around it; what a character outside ASCII becomes is Unicode's
    business (and may depend on its neighbours), and is a parameter. *)
Class Casing : Type := {
  lower_other : list string → string → list string → string
}.

(** The casing that leaves every character outside ASCII as it is. *)
Definition ascii_casing : Casing := {| lower_other := λ _ c _, c |}.

Definition lower_ascii (c : ascii) : ascii :=
  let n := N_of_ascii c in
  if ((65 <=? n) && (n <=? 90))%N then ascii_of_N (n + 32) else c.

Definition is_ascii (c : ascii) : bool := (N_of_ascii c <? 128)%N.

Section Lower.
Context `{Casing}.

Definition lower_char (before : list string) (c : string) (after : list string) : string :=
  match c with
  | String a EmptyString =>
      if is_ascii a then String (lower_ascii a) EmptyString else lower_other before c after
  | _ => lower_other before c after
  end.

Fixpoint lower_from (before cs : list string) : string :=
  match cs with
  | [] => EmptyString
  | c :: after => (lower_char before c after ++ lower_from (before ++ [c]) after)%string
  end.

(** [s.lower()] *)
Definition py_lower (s : string) : string := lower_from [] (chars s).

(** ** The other views of app/parser.py *)

Definition get_football_matches (s : self) : list Match :=
  List.filter (λ m, String.eqb (py_lower (Match.sport m)) "football") (matches s).

Definition get_cricket_matches (s : self) : list Match :=
  List.filter (λ m, String.eqb (py_lower (Match.sport m)) "cricket") (matches s).

End Lower.

Definition get_live_matches (s : self) : list Match :=
  List.filter Match.is_live (matches s).

(** [l[:limit]]: a negative limit counts from the end. *)
Definition slice_to {A} (l : list A) (limit : Z) : list A :=
  if 0 <=? limit then take (Z.to_nat limit) l
  else take (length l - Z.to_nat (- limit)) l.

(** ** The endpoints of app/main.py that read the current parser

    The global [current_parser] is an argument; an endpoint returns its
    value or raises an [HTTPException]. *)
Module main.

Record HTTPException : Type := new_exception {
  status_code : Z;
  detail : string
}.

Inductive response (A : Type) : Type :=
  | Return (a : A)
  | RaiseHTTP (e : HTTPException).
Arguments Return {A} a.
Arguments RaiseHTTP {A} e.

(** The dict that [get_summary] returns. *)
Record Summary : Type := new_summary {
  total_matches : nat;
  football_matches : nat;
  cricket_matches : nat;
  live_matches : nat;
  popular_leagues : list (string * nat)
}.

Definition no_data {A} : response A :=
  RaiseHTTP (new_exception 404 "No data available").

Section endpoints.
Context `{Casing}.

Definition get_summary (current_parser : option self) : response Summary :=
  match current_parser with
  | None => no_data
  | Some p =>
      Return (new_summary (length (matches p))
                (length (get_football_matches p))
                (length (get_cricket_matches p))
                (length (get_live_matches p))
                (get_popular_leagues p))
  end.

Definition get_matches (current_parser : option self) (sport : option string)
    (live_only : bool) (min_odds : option float) (limit : Z) : response (list Match) :=
  match current_parser with
  | None => no_data
  | Some p =>
      let matches := matches p in
      let matches :=
        match sport with
        | Some sp =>
            if negb (String.eqb sp "") then
              List.filter (λ m, String.eqb (py_lower (Match.sport m)) (py_lower sp)) matches
            else matches
        | None => matches
        end in
      let matches := if live_only then List.filter Match.is_live matches else matches in
      let matches :=
        match min_odds with
        | Some t =>
            if negb (PrimFloat.eqb t 0)
            then List.filter (any_good_odds t) matches
            else matches
        | None => matches
        end in
      Return (slice_to matches limit)
  end.

End endpoints.

(** [next((m for m in matches if m.id == match_id), None)], then 404 for
    [None]. *)
Definition get_match (current_parser : option self) (match_id : Z) : response Match :=
  match current_parser with
  | None => no_data
  | Some p =>
      match List.find (λ m, Match.id m =? match_id) (matches p) with
      | Some m => Return m
      | None => RaiseHTTP (new_exception 404 "Match not found")
      end
  end.

Definition get_leagues (current_parser : option self) : response (list (string * nat)) :=
  match current_parser with
  | None => no_data
  | Some p => Return (get_popular_leagues p)
  end.

End main.

(** ** More vocabulary *)


(** A loop that builds one value per item, in order, and stops at the
    first item that raises. *)
Fixpoint collect {A} (f : json → result A) (items : list json) : result (list A) :=
  match items with
  | [] => Ok []
  | x :: rest => a ← f x; l ← collect f rest; mret (a :: l)
  end.

(** The markets [l] of category [b], in the order of [l]. *)
Definition of_category (b : bucket) (l : list Market) : list Market :=
  filter (λ mk, spec_classify (Market.type mk) = Some b) l.

(** [mk] has its type code from the mapping [g] and its outcome, odds
    and parameter from the mapping [d]: the value under the key when it
    is there with its type, 0 (0.0 for the odds, [None] for the
    parameter) when the key is missing. *)
Definition decoded_from (g d : gmap string json) (mk : Market) : Prop :=
  (g !! "G" = None → Market.type mk = 0) ∧
  (∀ z, g !! "G" = Some (JInt z) → Market.type mk = z) ∧
  (d !! "T" = None → Market.outcome mk = 0) ∧
  (∀ z, d !! "T" = Some (JInt z) → Market.outcome mk = z) ∧
  (d !! "C" = None → Market.odds mk = 0%float) ∧
  (∀ f, d !! "C" = Some (JFloat f) → Market.odds mk = f) ∧
  (d !! "P" = None ∨ d !! "P" = Some JNull → Market.parameter mk = None) ∧
  (∀ f, d !! "P" = Some (JFloat f) → Market.parameter mk = Some f).

(** Filing the markets of [built], one after the other. *)
Definition file_all (markets : Markets) (built : list Market) : Markets :=
  foldl (λ ms mk, _categorize_market mk ms) markets built.

(** What an entry of the misc-info list gives for the weather key [n]:
    its "V" (or [None]) when its "K" equals [n]. *)
Definition entry_value (n : Z) (item : json) : option json :=
  match item with
  | JDict d =>
      if py_eq_int (default JNull (d !! "K")) n then Some (default JNull (d !! "V"))
      else None
  | _ => None
  end.

(** The value of the last entry of [items] whose key is [n]. *)
Definition last_value (n : Z) (items : list json) : option json :=
  last (omap (entry_value n) items).

Fixpoint ascii_only (s : string) : bool :=
  match s with
  | EmptyString => true
  | String c s' => is_ascii c && ascii_only s'
  end.

Fixpoint ascii_lower (s : string) : string :=
  match s with
  | EmptyString => EmptyString
  | String c s' => String (lower_ascii c) (ascii_lower s')
  end.

Section vocabulary2.
Context `{External}.

(** The markets built from the primary array, in its order. *)
Definition primary_markets (e : json) : result (list Market) :=
  entries ← py_iter e; collect main_market entries.

(** The markets built from one group of the additional array. *)
Definition group_markets (market_group : json) : result (list Market) :=
  me ← py_get market_group "ME" (JList []);
  entries ← py_iter me;
  collect (additional_market market_group) entries.

(** The markets built from the additional array, group after group. *)
Definition additional_markets (ae : json) : result (list Market) :=
  groups ← py_iter ae;
  built ← collect group_markets groups;
  Ok (mjoin (built : list (list Market))).

(** A field of [Weather] as pydantic sets it from what the loop left
    under its name. *)
Definition weather_field (found : option json) : result (option string) :=
  match found with
  | Some v => validate_optional validate_str v
  | None => Ok None
  end.

End vocabulary2.

Section vocabulary3.
Context `{Casing}.

(** What [get_matches] asks of a match, all filters together: a filter
    that is absent or falsy ([None], the empty string, [False], 0.0) asks
    nothing. *)
Definition wanted (sport : option string) (live_only : bool) (min_odds : option float)
    (m : Match) : bool :=
  match sport with
  | Some sp =>
      if negb (String.eqb sp "") then String.eqb (py_lower (Match.sport m)) (py_lower sp)
      else true
  | None => true
  end &&
  (if live_only then Match.is_live m else true) &&
  match min_odds with
  | Some t => if negb (PrimFloat.eqb t 0) then any_good_odds t m else true
  | None => true
  end.

End vocabulary3.

(** ** More sample data *)

(** A record with team images, match info, probabilities, a status and
    two weather entries of the same key. *)
Definition full_fields : gmap string json :=
  list_to_map
    [ ("I", JInt 7); ("L", JStr "A vs B"); ("SE", JStr "Football");
      ("LE", JStr "Premier"); ("CN", JStr "UK"); ("S", JInt 1700000000);
      ("O1", JStr "A"); ("O1I", JInt 10); ("O1IMG", JList [JStr "a.png"; JStr "a2.png"]);
      ("O2", JStr "B"); ("O2I", JInt 20); ("O2IMG", JList []);
      ("MIO", obj [("Loc", JStr "Anfield")]);
      ("WP", obj [("P1", JFloat 0.5); ("PX", JFloat 0.25); ("P2", JFloat 0.25)]);
      ("SS", JInt 1); ("EC", JInt 42) ].

Definition sample_weather : list json :=
  [ obj [("K", JInt 9); ("V", JStr "21")];
    obj [("K", JInt 21); ("V", JStr "Sunny")];
    obj [("K", JInt 2); ("V", JStr "Stadium")];
    obj [("K", JInt 9); ("V", JStr "25")] ].

(** A record of a sport, live or not. *)
Definition sport_record (ident : Z) (sp : string) (status : Z) : json :=
  obj [ ("I", JInt ident); ("SE", JStr sp); ("SS", JInt status) ].

(** The parser of five records: three of football in different
    spellings, one of cricket, one of tennis; two records share the
    identifier 2. *)
Definition sports_parser : self :=
  match (@__init__ plain
           (obj [("Value", JList [ sport_record 1 "Football" 0;
                                   sport_record 2 "CRICKET" 1;
                                   sport_record 3 "football" 1;
                                   sport_record 2 "Tennis" 0;
                                   sport_record 5 "FootBall" 0 ])])
           sample_world).1 with
  | Ok p => p
  | Raise _ => new JNull []
  end.

(** * Properties *)

(** ** Reasoning about the two monads *)

Lemma bind_Ok {A B} (m : result A) (k : A → result B) (b : B) :
  m ≫= k = Ok b ↔ ∃ a, m = Ok a ∧ k a = Ok b.
Proof.
  destruct m as [a|e]; cbn; split.
  - eauto.
  - by intros (? & [= <-] & ?).
  - done.
  - by intros (? & ? & ?).
Qed.

Lemma fmap_Ok {A B} (g : A → B) (m : result A) (b : B) :
  g <$> m = Ok b ↔ ∃ a, m = Ok a ∧ b = g a.
Proof.
  destruct m as [a|e]; cbn; split.
  - intros [= <-]. eauto.
  - by intros (? & [= <-] & ->).
  - done.
  - by intros (? & ? & ?).
Qed.

Lemma py_bind_Ok {A B} (m : py A) (k : A → py B) (b : B) (w w' : world) :
  (m ≫= k) w = (Ok b, w') ↔ ∃ a w1, m w = (Ok a, w1) ∧ k a w1 = (Ok b, w').
Proof.
  unfold mbind, py_bind. destruct (m w) as [[a|e] w1]; split.
  - eauto.
  - by intros (? & ? & [= <- <-] & ?).
  - done.
  - by intros (? & ? & ? & ?).
Qed.

Lemma lift_Ok {A} (r : result A) (a : A) (w w' : world) :
  lift r w = (Ok a, w') ↔ r = Ok a ∧ w' = w.
Proof. unfold lift. split; [by intros [= -> ->] | by intros [-> ->]]. Qed.

Lemma py_get_Ok (v : json) (key : string) (dflt x : json) :
  py_get v key dflt = Ok x ↔ ∃ d, v = JDict d ∧ x = default dflt (d !! key).
Proof.
  destruct v; cbn; split; try done; try by intros (? & ? & ?).
  - intros [= <-]. eauto.
  - by intros (? & [= <-] & ->).
Qed.

(** Membership in a list that is written out, and its negation. *)
Ltac in_list :=
  repeat first [apply list_elem_of_here | apply list_elem_of_further].

Ltac not_in_list :=
  let Hin := fresh "Hin" in
  intros Hin;
  repeat (apply elem_of_cons in Hin as [Hin|Hin]; [discriminate Hin|]);
  by apply elem_of_nil in Hin.

(** Successive inversion of a chain of binds that ended well. *)
Ltac inv_ok :=
  repeat match goal with
  | H : _ ≫= _ = Ok _ |- _ => apply bind_Ok in H as (? & ? & H)
  | H : (_ ≫= _) _ = (Ok _, _) |- _ => apply py_bind_Ok in H as (? & ? & ? & H)
  | H : lift _ _ = (Ok _, _) |- _ => apply lift_Ok in H as [H ->]
  | H : _ <$> _ = Ok _ |- _ => apply fmap_Ok in H as (? & H & ->)
  | H : mret _ = Ok _ |- _ => inversion H; subst; clear H
  | H : Ok _ = Ok _ |- _ => inversion H; subst; clear H
  end.

(** ** Floats *)

Lemma SFleb_trans (x y z : spec_float) :
  SFleb x y = true → SFleb y z = true → SFleb x z = true.
Proof.
  unfold SFleb, SFcompare.
  destruct x as [sx|sx| |sx mx ex], y as [sy|sy| |sy my ey], z as [sz|sz| |sz mz ez];
    try discriminate; try reflexivity;
    repeat match goal with s : bool |- _ => destruct s end;
    try discriminate; try reflexivity;
    change (Pos.compare_cont Eq) with Pos.compare;
    destruct (Z.compare_spec ex ey), (Z.compare_spec ey ez); try discriminate;
    destruct (Pos.compare_spec mx my), (Pos.compare_spec my mz); try discriminate;
    intros _ _; subst;
    rewrite ?Z.compare_refl, ?Pos.compare_refl; try reflexivity;
    repeat match goal with
    | |- context [?a ?= ?b] => destruct (Z.compare_spec a b); try lia
    | |- context [(?a ?= ?b)%positive] => destruct (Pos.compare_spec a b); try lia
    end; try reflexivity.
Qed.

Lemma float_ge_trans (a b c : float) :
  float_ge a b = true → float_ge b c = true → float_ge a c = true.
Proof.
  unfold float_ge. rewrite !leb_spec. intros Hab Hbc. by eapply SFleb_trans.
Qed.

(** ** The views of the Dataset *)

Lemma elem_of_good_odds (s : self) (t : float) (m : Match) :
  m ∈ get_matches_with_good_odds s t ↔
  m ∈ matches s ∧
  ∃ market, market ∈ Markets.match_result (Match.markets m) ∧
            float_ge (Market.odds market) t = true.
Proof.
  unfold get_matches_with_good_odds, any_good_odds.
  rewrite !list_elem_of_In, filter_In, existsb_exists.
  by setoid_rewrite list_elem_of_In.
Qed.


(** C6. Raising the threshold can only remove matches: when [t2 >= t1],
    every match of [get_matches_with_good_odds t2] is one of
    [get_matches_with_good_odds t1]; and a match is returned for [t]
    exactly when it is in the Dataset and one of its match_result markets
    has odds [>= t]. *)
Theorem good_odds_monotone (s : self) (t1 t2 : float) :
  float_ge t2 t1 = true →
  (∀ m, m ∈ get_matches_with_good_odds s t2 → m ∈ get_matches_with_good_odds s t1) ∧
  (∀ t m,
     m ∈ get_matches_with_good_odds s t ↔
     m ∈ matches s ∧
     ∃ market, market ∈ Markets.match_result (Match.markets m) ∧
               float_ge (Market.odds market) t = true).
Proof.
  intros Ht. split; [|intros t m; apply elem_of_good_odds].
  intros m. rewrite !elem_of_good_odds.
  intros (Hm & market & Hin & Hodds). split; [done|].
  exists market. split; [done|]. by eapply float_ge_trans.
Qed.

(** ** The league summary *)

Lemma StronglySorted_impl_elem {A} (R1 R2 : relation A) (l : list A) :
  (∀ x y, x ∈ l → y ∈ l → R1 x y → R2 x y) →
  StronglySorted R1 l → StronglySorted R2 l.
Proof.
  induction l as [|a l IH]; intros Himpl Hs; [constructor|].
  apply StronglySorted_cons in Hs as [Hall Hs]. apply StronglySorted_cons. split.
  - rewrite Forall_forall in Hall |- *. intros y Hy.
    apply Himpl; [apply list_elem_of_here | by apply list_elem_of_further | by apply Hall].
  - apply IH; [|done]. intros x y Hx Hy. apply Himpl; by apply list_elem_of_further.
Qed.

Lemma StronglySorted_of_fmap {A B} (f : A → B) (R : relation B) (l : list A) :
  StronglySorted R (f <$> l) → StronglySorted (λ a b, R (f a) (f b)) l.
Proof.
  induction l as [|a l IH]; intros Hs; [constructor|].
  rewrite fmap_cons in Hs.
  apply StronglySorted_cons in Hs as [Hall Hs]. apply StronglySorted_cons.
  split; [|by apply IH].
  apply Forall_forall. intros b Hb.
  eapply Forall_forall; [exact Hall|]. apply list_elem_of_fmap. eauto.
Qed.

Lemma dict_set_sum (d : list (string * nat)) (k : string) :
  sum_list_with snd (dict_set d k (dict_get d k + 1)) = S (sum_list_with snd d).
Proof.
  induction d as [|[k' n'] d IH]; cbn; [lia|].
  destruct (String.eqb k' k); cbn; [lia | rewrite IH; lia].
Qed.

Lemma dict_set_keys (d : list (string * nat)) (k : string) (n : nat) :
  (dict_set d k n).*1 = if decide (k ∈ d.*1) then d.*1 else d.*1 ++ [k].
Proof.
  induction d as [|[k' n'] d IH]; cbn.
  - by rewrite decide_False by apply not_elem_of_nil.
  - destruct (String.eqb_spec k' k) as [->|Hne]; cbn.
    + by rewrite decide_True by apply list_elem_of_here.
    + rewrite IH. destruct (decide (k ∈ d.*1)) as [Hin|Hin].
      * by rewrite decide_True by by apply list_elem_of_further.
      * rewrite decide_False; [done|].
        intros [->|?]%elem_of_cons; done.
Qed.

Lemma first_seen_snoc (lg : string) (ms : list Match) (m : Match) :
  first_seen lg (ms ++ [m]) =
  if decide (first_seen lg ms < length ms)%nat then first_seen lg ms
  else if String.eqb (Match.league m) lg then length ms
  else S (length ms).
Proof.
  induction ms as [|m0 ms IH]; cbn.
  - by destruct (String.eqb _ _).
  - destruct (String.eqb (Match.league m0) lg).
    + by rewrite decide_True by lia.
    + rewrite IH. destruct (decide (first_seen lg ms < length ms)%nat).
      * by rewrite decide_True by lia.
      * rewrite decide_False by lia. by destruct (String.eqb _ _).
Qed.

Lemma league_counts_snoc (ms : list Match) (m : Match) :
  league_counts (ms ++ [m]) =
  dict_set (league_counts ms) (Match.league m)
    (dict_get (league_counts ms) (Match.league m) + 1).
Proof. unfold league_counts. by rewrite fold_left_app. Qed.

(** The keys of [league_counts] are the leagues met, in the order of
    their first match. *)
Lemma league_counts_keys (ms : list Match) :
  (∀ k, k ∈ (league_counts ms).*1 ↔ (first_seen k ms < length ms)%nat) ∧
  StronglySorted (λ a b, (first_seen a ms < first_seen b ms)%nat) (league_counts ms).*1.
Proof.
  induction ms as [|m ms [IHk IHs]] using rev_ind.
  - split; [|constructor]. intros k. cbn. rewrite elem_of_nil. lia.
  - rewrite league_counts_snoc, dict_set_keys, length_app. cbn [length].
    assert (Hsorted : StronglySorted
              (λ a b, (first_seen a (ms ++ [m]) < first_seen b (ms ++ [m]))%nat)
              (league_counts ms).*1).
    { eapply StronglySorted_impl_elem; [|exact IHs].
      intros x y Hx%IHk Hy%IHk Hlt. rewrite !first_seen_snoc.
      by rewrite !decide_True by done. }
    destruct (decide (Match.league m ∈ (league_counts ms).*1)) as [Hin|Hin].
    + split; [|done]. intros k. rewrite IHk, first_seen_snoc.
      destruct (decide (first_seen k ms < length ms)%nat) as [Hlt|Hge]; [lia|].
      destruct (String.eqb_spec (Match.league m) k) as [<-|Hne]; [|lia].
      by apply IHk in Hin.
    + assert (Hnew : first_seen (Match.league m) (ms ++ [m]) = length ms).
      { rewrite first_seen_snoc, decide_False by by rewrite <-IHk.
        by rewrite String.eqb_refl. }
      split.
      * intros k. rewrite elem_of_app, list_elem_of_singleton, IHk, first_seen_snoc.
        destruct (decide (first_seen k ms < length ms)%nat) as [Hlt|Hge]; [lia|].
        destruct (String.eqb_spec (Match.league m) k) as [<-|Hne]; [|split].
        -- split; [lia|auto].
        -- intros [?|?]; [lia|congruence].
        -- lia.
      * apply StronglySorted_app. split_and!; [|done|repeat constructor].
        intros x y Hx%IHk ->%list_elem_of_singleton.
        rewrite Hnew, first_seen_snoc. by rewrite decide_True by done.
Qed.

Lemma league_counts_sum (ms : list Match) :
  sum_list_with snd (league_counts ms) = length ms.
Proof.
  induction ms as [|m ms IH] using rev_ind; [done|].
  rewrite league_counts_snoc, dict_set_sum, IH, length_app. cbn. lia.
Qed.

Lemma dict_get_set (d : list (string * nat)) (k k' : string) (n : nat) :
  dict_get (dict_set d k n) k' = if decide (k = k') then n else dict_get d k'.
Proof.
  induction d as [|[k0 n0] d IH]; cbn.
  - destruct (String.eqb_spec k k') as [->|Hne]; [by rewrite decide_True|].
    by rewrite decide_False.
  - destruct (String.eqb_spec k0 k) as [->|Hne]; cbn.
    + destruct (String.eqb_spec k k') as [->|Hne']; [by rewrite decide_True|].
      by rewrite decide_False.
    + destruct (String.eqb_spec k0 k') as [->|Hne']; [|apply IH].
      by rewrite decide_False by congruence.
Qed.

Lemma count_league_snoc (lg : string) (ms : list Match) (m : Match) :
  count_league lg (ms ++ [m]) =
  (count_league lg ms + if decide (Match.league m = lg) then 1 else 0)%nat.
Proof.
  unfold count_league. rewrite filter_app, length_app. f_equal.
  rewrite filter_cons, filter_nil. by case_decide.
Qed.

Lemma league_counts_get (ms : list Match) (lg : string) :
  dict_get (league_counts ms) lg = count_league lg ms.
Proof.
  induction ms as [|m ms IH] using rev_ind; [done|].
  rewrite league_counts_snoc, dict_get_set, count_league_snoc.
  case_decide as Hlg; [|by rewrite IH, Nat.add_0_r].
  by rewrite Hlg, IH.
Qed.

Lemma first_seen_count (lg : string) (ms : list Match) :
  (first_seen lg ms < length ms)%nat ↔ (0 < count_league lg ms)%nat.
Proof.
  unfold count_league. induction ms as [|m ms IH]; [cbn; lia|].
  rewrite filter_cons. cbn [first_seen length].
  destruct (String.eqb_spec (Match.league m) lg) as [Heq|Hne].
  - rewrite decide_True by done. cbn [length]. lia.
  - rewrite decide_False by done. rewrite <-IH. lia.
Qed.

Lemma league_counts_NoDup (ms : list Match) : NoDup (league_counts ms).*1.
Proof.
  destruct (league_counts_keys ms) as [_ Hs].
  induction Hs as [|k l Hs IH Hall]; constructor; [|done].
  intros Hin. eapply Forall_forall in Hall; [|exact Hin]. lia.
Qed.

Lemma dict_get_elem_of (d : list (string * nat)) (k : string) (n : nat) :
  NoDup d.*1 → (k, n) ∈ d → dict_get d k = n.
Proof.
  induction d as [|[k0 n0] d IH]; intros Hnd Hin; [by apply elem_of_nil in Hin|].
  rewrite fmap_cons in Hnd. apply NoDup_cons in Hnd as [Hk0 Hnd].
  cbn. apply elem_of_cons in Hin as [[= <- <-]|Hin].
  - by rewrite String.eqb_refl.
  - destruct (String.eqb_spec k0 k) as [->|_]; [|by apply IH].
    destruct Hk0. apply list_elem_of_fmap. by exists (k, n).
Qed.

Lemma league_counts_elem_of (ms : list Match) (lg : string) (c : nat) :
  (lg, c) ∈ league_counts ms ↔ c = count_league lg ms ∧ (0 < c)%nat.
Proof.
  destruct (league_counts_keys ms) as [Hkeys _]. split.
  - intros Hin.
    pose proof (dict_get_elem_of _ _ _ (league_counts_NoDup ms) Hin) as Hget.
    rewrite league_counts_get in Hget. split; [done|].
    rewrite <-Hget. apply first_seen_count, Hkeys, list_elem_of_fmap. by exists (lg, c).
  - intros [-> Hpos]. apply first_seen_count, Hkeys in Hpos.
    apply list_elem_of_fmap in Hpos as ([lg' c'] & -> & Hin). cbn.
    by rewrite <-league_counts_get,
      (dict_get_elem_of _ _ _ (league_counts_NoDup ms) Hin).
Qed.

(** [sorted_desc] is a stable sort. *)
Lemma insert_desc_perm (x : string * nat) (l : list (string * nat)) :
  insert_desc x l ≡ₚ x :: l.
Proof.
  induction l as [|y l IH]; cbn [insert_desc]; [reflexivity|].
  destruct (x.2 <? y.2)%nat; [|reflexivity].
  rewrite IH. apply Permutation_swap.
Qed.

Lemma sorted_desc_perm (l : list (string * nat)) : sorted_desc l ≡ₚ l.
Proof.
  induction l as [|x l IH]; [reflexivity|].
  unfold sorted_desc in *. cbn. by rewrite insert_desc_perm, IH.
Qed.

Section stable.
Context (T : relation (string * nat)).

Lemma insert_desc_sorted (x : string * nat) (l : list (string * nat)) :
  Forall (T x) l →
  StronglySorted (by_count_then T) l →
  StronglySorted (by_count_then T) (insert_desc x l).
Proof.
  unfold by_count_then.
  induction l as [|y l IH]; cbn [insert_desc]; intros Hx Hs; [repeat constructor|].
  apply Forall_cons in Hx as [Hxy Hx].
  pose proof Hs as [Hy Hs']%StronglySorted_cons.
  destruct (Nat.ltb_spec x.2 y.2) as [Hlt|Hge].
  - apply StronglySorted_cons. split; [|by apply IH].
    rewrite insert_desc_perm. apply Forall_cons. split; [|done].
    split; [lia|]. intros Heq. lia.
  - apply StronglySorted_cons. split; [|done].
    apply Forall_cons. split; [by split|].
    rewrite Forall_forall in Hy, Hx |- *. intros z Hz.
    destruct (Hy z Hz) as [Hle _]. split; [lia|]. intros _. by apply Hx.
Qed.

Lemma sorted_desc_sorted (l : list (string * nat)) :
  StronglySorted T l → StronglySorted (by_count_then T) (sorted_desc l).
Proof.
  induction l as [|x l IH]; intros Hs; [constructor|].
  apply StronglySorted_cons in Hs as [Hx Hs].
  unfold sorted_desc in *. cbn. apply insert_desc_sorted; [|by apply IH].
  by rewrite sorted_desc_perm.
Qed.

End stable.

(** C5. The counts of [get_popular_leagues] add up to the number of
    matches of the Dataset, and its pairs come by count, greatest first,
    those of equal count in the order in which their leagues are first
    met in the Dataset. *)
Theorem popular_leagues_sum_sorted (s : self) :
  sum_list_with snd (get_popular_leagues s) = length (matches s) ∧
  StronglySorted (summary_order (matches s)) (get_popular_leagues s).
Proof.
  unfold get_popular_leagues. split.
  - by rewrite sorted_desc_perm, league_counts_sum.
  - apply (sorted_desc_sorted
             (λ a b, (first_seen a.1 (matches s) < first_seen b.1 (matches s))%nat)).
    apply (StronglySorted_of_fmap fst
             (λ a b, (first_seen a (matches s) < first_seen b (matches s))%nat)).
    apply league_counts_keys.
Qed.

(** The summary lists every league that has a match once, with the
    number of its matches. *)
Theorem popular_leagues_counts (s : self) :
  NoDup (get_popular_leagues s).*1 ∧
  ∀ lg c, (lg, c) ∈ get_popular_leagues s ↔
          c = count_league lg (matches s) ∧ (0 < c)%nat.
Proof.
  unfold get_popular_leagues. split.
  - rewrite sorted_desc_perm. apply league_counts_NoDup.
  - intros lg c. rewrite sorted_desc_perm. apply league_counts_elem_of.
Qed.

Section properties.
Context `{External}.

(** An invariant of the loop's object holds after the loop when every
    turn keeps it. *)
Lemma for_in_invariant {S : Type} (P : S → Prop) (body : json → S → result S)
    (items : list json) (s s' : S) :
  for_in body items s = Ok s' →
  P s →
  (∀ x s1 s2, x ∈ items → P s1 → body x s1 = Ok s2 → P s2) →
  P s'.
Proof.
  revert s. induction items as [|x items IH]; intros s Hrun Hs Hstep.
  - by injection Hrun as <-.
  - cbn in Hrun. apply bind_Ok in Hrun as (s1 & Hx & Hrun).
    apply (IH s1 Hrun).
    + eapply Hstep; [apply list_elem_of_here | done..].
    + intros y t1 t2 Hy. apply Hstep. by apply list_elem_of_further.
Qed.

(** What [_categorize_market] does to each bucket. *)
Lemma categorize_bucket (market : Market) (markets : Markets) (b : bucket) :
  bucket_of b (_categorize_market market markets) =
  bucket_of b markets ++
    (if decide (spec_classify (Market.type market) = Some b) then [market] else []).
Proof.
  unfold _categorize_market, spec_classify. cbn [List.find table_4_2 existsb fst snd].
  rewrite !orb_false_r.
  destruct (Market.type market =? 1); [by destruct b; cbn; rewrite ?app_nil_r|].
  destruct (Market.type market =? 15); [by destruct b; cbn; rewrite ?app_nil_r|].
  destruct (Market.type market =? 62); [by destruct b; cbn; rewrite ?app_nil_r|].
  destruct (Market.type market =? 2); [by destruct b; cbn; rewrite ?app_nil_r|].
  destruct (Market.type market =? 17); [by destruct b; cbn; rewrite ?app_nil_r|].
  destruct (Market.type market =? 19); [by destruct b; cbn; rewrite ?app_nil_r|].
  destruct (Market.type market =? 8); [by destruct b; cbn; rewrite ?app_nil_r|].
  by destruct b; cbn; rewrite ?app_nil_r.
Qed.

Lemma elem_of_categorize (market mk : Market) (markets : Markets) (b : bucket) :
  mk ∈ bucket_of b (_categorize_market market markets) ↔
  mk ∈ bucket_of b markets ∨ (mk = market ∧ spec_classify (Market.type market) = Some b).
Proof.
  rewrite categorize_bucket, elem_of_app. case_decide.
  - rewrite list_elem_of_singleton. tauto.
  - rewrite elem_of_nil. tauto.
Qed.

(** The inversion of a successful [_parse_single_match]. *)
Lemma parse_single_match_Ok (match_data : json) (w w' : world) (m : Match) :
  _parse_single_match match_data w = (Ok m, w') →
  ∃ d, match_data = JDict d ∧
    let get key dflt := default dflt (d !! key) in
    validate_int (get "I" JNull) = Ok (Match.id m) ∧
    validate_str (get "L" (JStr "")) = Ok (Match.name m) ∧
    validate_str (get "SE" (JStr "")) = Ok (Match.sport m) ∧
    validate_str (get "LE" (JStr "")) = Ok (Match.league m) ∧
    validate_str (get "CN" (JStr "")) = Ok (Match.country m) ∧
    (if py_truthy (get "S" (JInt 0))
     then fromtimestamp (get "S" (JInt 0)) = Ok (Match.start_time m) ∧ w' = w
     else datetime_now w = (Ok (Match.start_time m), w')) ∧
    validate_str (get "O1" (JStr "")) = Ok (Team.name (Match.home_team m)) ∧
    validate_int (get "O1I" (JInt 0)) = Ok (Team.id (Match.home_team m)) ∧
    validate_str (get "O2" (JStr "")) = Ok (Team.name (Match.away_team m)) ∧
    validate_int (get "O2I" (JInt 0)) = Ok (Team.id (Match.away_team m)) ∧
    _parse_markets (get "E" (JList [])) (get "AE" (JList [])) = Ok (Match.markets m) ∧
    _parse_weather (get "MIS" (JList [])) = Ok (Match.weather m) ∧
    Match.is_live m = py_eq_int (get "SS" (JInt 0)) 1 ∧
    validate_int (get "EC" (JInt 0)) = Ok (Match.event_count m).
Proof.
  unfold _parse_single_match. intros Hrun.
  apply py_bind_Ok in Hrun as (match_id & w1 & Hid & Hrun).
  apply lift_Ok in Hid as [Hid ->].
  apply py_get_Ok in Hid as (d & -> & ->). exists d. split; [done|].
  cbn [py_get] in Hrun. 
  inv_ok.
  unfold Match_init in *. unfold Team_init in *. inv_ok. cbn.
  repeat split; try done.
  destruct (py_truthy (default (JInt 0) (d !! "S"))); [|done].
  by inv_ok.
Qed.

(** Induction over the markets [_parse_markets] builds: what holds of the
    empty [Markets] and is kept by the filing of every market built from
    the two arrays holds of the result. *)
Lemma parse_markets_invariant (P : Markets → Prop) (e ae : json) (markets : Markets) :
  _parse_markets e ae = Ok markets →
  P (Markets.new [] [] [] [] []) →
  (∀ market ms, from_primary e market ∨ from_additional ae market →
     P ms → P (_categorize_market market ms)) →
  P markets.
Proof.
  unfold _parse_markets. intros Hrun Hempty Hstep.
  apply bind_Ok in Hrun as (entries & He & Hrun).
  apply bind_Ok in Hrun as (ms1 & Hloop1 & Hrun).
  apply bind_Ok in Hrun as (groups & Hae & Hloop2).
  eapply (for_in_invariant P); [exact Hloop2 | |].
  - eapply (for_in_invariant P); [exact Hloop1 | exact Hempty |].
    intros entry s1 s2 Hin Hs1 Hbody. cbv beta in Hbody. inv_ok.
    apply Hstep; [|done]. left. by exists entries, entry.
  - intros group s1 s2 Hin Hs1 Hbody.
    apply bind_Ok in Hbody as (me & Hme & Hbody).
    apply bind_Ok in Hbody as (entries' & Hiter & Hinner).
    eapply (for_in_invariant P); [exact Hinner | exact Hs1 |].
    intros entry t1 t2 Hin' Ht1 Hbody. cbv beta in Hbody. inv_ok.
    apply Hstep; [|done]. right. by exists groups, group, me, entries', entry.
Qed.

(** Every bucket holds only markets of its own category. *)
Lemma parse_markets_buckets (e ae : json) (markets : Markets) (b : bucket) (mk : Market) :
  _parse_markets e ae = Ok markets →
  mk ∈ bucket_of b markets →
  spec_classify (Market.type mk) = Some b.
Proof.
  intros Hrun. revert b mk.
  apply (parse_markets_invariant
           (λ ms, ∀ b mk, mk ∈ bucket_of b ms → spec_classify (Market.type mk) = Some b)
           e ae markets Hrun).
  - intros [] mk Hin; by apply elem_of_nil in Hin.
  - intros market ms _ IH b mk Hin.
    apply elem_of_categorize in Hin as [Hin|[-> Hb]]; [by apply IH | done].
Qed.

(** Every market of a bucket was built from one of the two arrays. *)
Lemma parse_markets_provenance (e ae : json) (markets : Markets) (b : bucket) (mk : Market) :
  _parse_markets e ae = Ok markets →
  mk ∈ bucket_of b markets →
  from_primary e mk ∨ from_additional ae mk.
Proof.
  intros Hrun. revert b mk.
  apply (parse_markets_invariant
           (λ ms, ∀ b mk, mk ∈ bucket_of b ms → from_primary e mk ∨ from_additional ae mk)
           e ae markets Hrun).
  - intros [] mk Hin; by apply elem_of_nil in Hin.
  - intros market ms Hfrom IH b mk Hin.
    apply elem_of_categorize in Hin as [Hin|[-> Hb]]; [by eapply IH | done].
Qed.

Lemma spec_classify_Some (code : Z) (b : bucket) :
  spec_classify code = Some b → code ∈ [1; 2; 8; 15; 17; 19; 62].
Proof.
  unfold spec_classify. cbn [List.find table_4_2 existsb fst snd].
  rewrite !orb_false_r. intros Hb.
  repeat match type of Hb with
  | context [?c =? ?n] =>
      destruct (Z.eqb_spec c n) as [->|_]; [in_list|]
  end.
  done.
Qed.


(** ** The market classifier *)

(** C1. [_categorize_market] files a market exactly as the table of
    section 4.2 says.  A market of type 1 is appended to match_result, of
    type 15 or 62 to over_under, of type 2 or 17 to handicap, of type 19
    to both_teams_score, of type 8 to correct_score, every other bucket
    staying as it was; a market of any other type leaves the [Markets]
    object unchanged.  In one line: the market goes where the classifier
    read off the table sends its type code. *)
Theorem categorize_market_table (market : Market) (markets : Markets) :
  let after := _categorize_market market markets in
  (Market.type market = 1 → filed_in (Some MatchResult) market markets after) ∧
  (Market.type market ∈ [15; 62] → filed_in (Some OverUnder) market markets after) ∧
  (Market.type market ∈ [2; 17] → filed_in (Some Handicap) market markets after) ∧
  (Market.type market = 19 → filed_in (Some BothTeamsScore) market markets after) ∧
  (Market.type market = 8 → filed_in (Some CorrectScore) market markets after) ∧
  (Market.type market ∉ [1; 2; 8; 15; 17; 19; 62] → after = markets) ∧
  filed_in (spec_classify (Market.type market)) market markets after.
Proof.
  cbv zeta.
  assert (Hfiled : filed_in (spec_classify (Market.type market)) market markets
                     (_categorize_market market markets))
    by (intros b; apply categorize_bucket).
  split_and!; [..|exact Hfiled].
  - intros Ht. by rewrite Ht in Hfiled.
  - intros Ht. apply elem_of_cons in Ht as [Ht|Ht%list_elem_of_singleton];
      by rewrite Ht in Hfiled.
  - intros Ht. apply elem_of_cons in Ht as [Ht|Ht%list_elem_of_singleton];
      by rewrite Ht in Hfiled.
  - intros Ht. by rewrite Ht in Hfiled.
  - intros Ht. by rewrite Ht in Hfiled.
  - intros Ht. unfold _categorize_market. cbn [existsb]. rewrite !orb_false_r.
    repeat match goal with
    | |- context [Market.type market =? ?n] =>
        destruct (Z.eqb_spec (Market.type market) n) as [Heq|_];
          [exfalso; apply Ht; rewrite Heq; in_list|]
    end.
    done.
Qed.

(** C4. In a normalized Match no market is in two buckets, and a market
    whose type code is not one of 1, 2, 8, 15, 17, 19, 62 is in no
    bucket. *)
Theorem market_in_at_most_one_bucket (match_data : json) (w w' : world) (m : Match) :
  _parse_single_match match_data w = (Ok m, w') →
  (∀ mk b1 b2,
     mk ∈ bucket_of b1 (Match.markets m) → mk ∈ bucket_of b2 (Match.markets m) →
     b1 = b2) ∧
  (∀ mk b,
     Market.type mk ∉ [1; 2; 8; 15; 17; 19; 62] → mk ∉ bucket_of b (Match.markets m)).
Proof.
  intros Hrun. apply parse_single_match_Ok in Hrun as (d & -> & Hm).
  cbv zeta in Hm. destruct Hm as (_ & _ & _ & _ & _ & _ & _ & _ & _ & _ & Hmk & _).
  split.
  - intros mk b1 b2 H1 H2.
    pose proof (parse_markets_buckets _ _ _ _ _ Hmk H1) as E1.
    pose proof (parse_markets_buckets _ _ _ _ _ Hmk H2) as E2.
    congruence.
  - intros mk b Hcode Hin. apply Hcode.
    eapply spec_classify_Some, parse_markets_buckets; eauto.
Qed.

(** C8. A market built from the additional array has [is_main = False]
    whatever its entry says; a market built from an entry of the primary
    array has [is_main = True] exactly when the entry's "CE" equals 1;
    and every market of a normalized Match is built from one of the two
    arrays, so one with [is_main = True] comes from the primary array. *)
Theorem is_main_only_from_primary (match_data : json) (w w' : world) (m : Match) :
  _parse_single_match match_data w = (Ok m, w') →
  ∃ e ae,
    py_get match_data "E" (JList []) = Ok e ∧
    py_get match_data "AE" (JList []) = Ok ae ∧
    (∀ mk, from_additional ae mk → Market.is_main mk = false) ∧
    (∀ entry mk, main_market entry = Ok mk →
       ∃ ce, py_get entry "CE" JNull = Ok ce ∧ Market.is_main mk = py_eq_int ce 1) ∧
    (∀ mk b, mk ∈ bucket_of b (Match.markets m) →
       from_primary e mk ∨ from_additional ae mk) ∧
    (∀ mk b, mk ∈ bucket_of b (Match.markets m) → Market.is_main mk = true →
       from_primary e mk).
Proof.
  intros Hrun. apply parse_single_match_Ok in Hrun as (d & -> & Hm).
  cbv zeta in Hm. destruct Hm as (_ & _ & _ & _ & _ & _ & _ & _ & _ & _ & Hmk & _).
  assert (Hadd : ∀ mk, from_additional (default (JList []) (d !! "AE")) mk →
                       Market.is_main mk = false).
  { intros mk (groups & group & me & entries & entry & _ & _ & _ & _ & _ & Hbuild).
    unfold additional_market, Market_init in Hbuild. by inv_ok. }
  eexists _, _. repeat split; [exact Hadd | | |].
  - intros entry mk Hbuild. unfold main_market, Market_init in Hbuild.
    apply bind_Ok in Hbuild as (g & _ & Hbuild).
    apply bind_Ok in Hbuild as (t & _ & Hbuild).
    apply bind_Ok in Hbuild as (c & _ & Hbuild).
    apply bind_Ok in Hbuild as (p & _ & Hbuild).
    apply bind_Ok in Hbuild as (ce & Hce & Hbuild).
    exists ce. split; [done|]. by inv_ok.
  - intros mk b. by apply parse_markets_provenance.
  - intros mk b Hin Hmain.
    destruct (parse_markets_provenance _ _ _ _ _ Hmk Hin) as [Hp|Ha]; [done|].
    apply Hadd in Ha. congruence.
Qed.

(** ** Start time *)

Lemma datetime_now_reading (w w' : world) (t : datetime) :
  datetime_now w = (Ok t, w') → wall w ≤ t ∧ wall w' = t.
Proof.
  unfold datetime_now. destruct (elapsed w) as [|dt rest]; intros [= <- <-]; cbn; lia.
Qed.

(** C7. When the record has no "S", or has 0 there, the start time of
    the normalized Match is what [datetime.now()] reads during the
    normalization, which is not earlier than the clock stood when it
    began; when "S" is an integer other than 0 the start time is
    [datetime.fromtimestamp] of it.  In general the first case is that of
    a falsy "S", the second that of a truthy one. *)
Theorem start_time_of_timestamp (match_data : json) (w w' : world) (m : Match) :
  _parse_single_match match_data w = (Ok m, w') →
  ∃ d, match_data = JDict d ∧
    (d !! "S" = None ∨ d !! "S" = Some (JInt 0) →
       datetime_now w = (Ok (Match.start_time m), w') ∧ wall w ≤ Match.start_time m) ∧
    (∀ z, z ≠ 0 → d !! "S" = Some (JInt z) →
       fromtimestamp (JInt z) = Ok (Match.start_time m)) ∧
    (if py_truthy (default (JInt 0) (d !! "S"))
     then fromtimestamp (default (JInt 0) (d !! "S")) = Ok (Match.start_time m)
     else datetime_now w = (Ok (Match.start_time m), w') ∧ wall w ≤ Match.start_time m).
Proof.
  intros Hrun. apply parse_single_match_Ok in Hrun as (d & -> & Hm).
  cbv zeta in Hm. destruct Hm as (_ & _ & _ & _ & _ & Hs & _).
  exists d. split; [done|]. split_and!.
  - intros [Hd|Hd]; rewrite Hd in Hs; cbn in Hs;
      (split; [done | by eapply datetime_now_reading]).
  - intros z Hz Hd. rewrite Hd in Hs. cbn in Hs.
    destruct (Z.eqb_spec z 0) as [?|_]; [done|]. by destruct Hs.
  - destruct (py_truthy _); [by destruct Hs|].
    split; [done | by eapply datetime_now_reading].
Qed.

(** ** Responses without records *)

Lemma parse_matches_only_value (d1 d2 : gmap string json) (w : world) :
  d1 !! "Value" = d2 !! "Value" →
  _parse_matches (JDict d1) w = _parse_matches (JDict d2) w.
Proof. intros Hv. unfold _parse_matches. cbn [py_get]. by rewrite Hv. Qed.

(** C9. A response object without "Value", or with an empty array there,
    makes a parser with no match, without raising and without touching
    the world; and the matches do not depend on "Error", "ErrorCode" or
    "Success": setting or removing any of them changes nothing of what
    [_parse_matches] does. *)
Theorem parser_of_empty_response (d : gmap string json) (w : world) :
  (d !! "Value" = None ∨ d !! "Value" = Some (JList []) →
     __init__ (JDict d) w = (Ok (new (JDict d) []), w)) ∧
  (∀ k v, k ∈ ["Error"; "ErrorCode"; "Success"] →
     _parse_matches (JDict (<[k:=v]> d)) w = _parse_matches (JDict d) w ∧
     _parse_matches (JDict (delete k d)) w = _parse_matches (JDict d) w).
Proof.
  split.
  - intros Hv. unfold __init__, _parse_matches. cbn [py_get].
    by destruct Hv as [-> | ->].
  - intros k v Hk.
    assert (k ≠ "Value") as Hne.
    { intros ->. repeat (apply elem_of_cons in Hk as [Hk|Hk]; [discriminate|]).
      by apply elem_of_nil in Hk. }
    split; apply parse_matches_only_value.
    + by rewrite lookup_insert_ne.
    + by rewrite lookup_delete_ne.
Qed.

(** ** Weather *)

Lemma chars_cons (c : ascii) (s : string) : chars (String c s) ≠ [].
Proof. cbn. destruct (chars s); [done|]. by destruct (starts_with_continuation s). Qed.

(** The dict of [_parse_weather] is empty after the loop exactly when it
    was empty before and no item had a key of the table. *)
Lemma weather_loop_empty (items : list json) (wm0 wm : gmap string json) :
  for_in (λ item (weather_map : gmap string json),
      key ← py_get item "K" JNull;
      value ← py_get item "V" JNull;
      mret (if py_eq_int key 9 then <["temperature" := value]> weather_map
            else if py_eq_int key 21 then <["condition" := value]> weather_map
            else if py_eq_int key 27 then <["humidity" := value]> weather_map
            else if py_eq_int key 23 then <["wind_speed" := value]> weather_map
            else if py_eq_int key 25 then <["pressure" := value]> weather_map
            else if py_eq_int key 35 then <["precipitation" := value]> weather_map
            else weather_map)) items wm0 = Ok wm →
  wm = ∅ ↔
  wm0 = ∅ ∧ ∀ item key, item ∈ items → py_get item "K" JNull = Ok key →
                        is_weather_key key = false.
Proof.
  revert wm0. induction items as [|item items IH]; intros wm0 Hrun.
  - injection Hrun as <-. split; [|by intros [? _]].
    intros ->. split; [done|]. by intros ?? ?%elem_of_nil.
  - cbn [for_in] in Hrun. apply bind_Ok in Hrun as (wm1 & Hbody & Hrun).
    apply IH in Hrun. rewrite Hrun. clear Hrun IH.
    apply bind_Ok in Hbody as (key & Hkey & Hbody).
    apply bind_Ok in Hbody as (value & _ & Hbody).
    injection Hbody as <-.
    assert (Hcase : is_weather_key key = false ∨ is_weather_key key = true)
      by (destruct (is_weather_key key); auto).
    destruct Hcase as [Hno|Hyes].
    + pose proof Hno as Hno'. unfold is_weather_key in Hno'. cbn [existsb] in Hno'.
      rewrite !orb_false_iff in Hno'.
      destruct Hno' as (-> & -> & -> & -> & -> & -> & _).
      split.
      * intros [-> Hrest]. split; [done|].
        intros it k [->|Hin]%elem_of_cons Hk; [congruence | by eapply Hrest].
      * intros [-> Hall]. split; [done|].
        intros it k Hin. apply Hall. by apply list_elem_of_further.
    + split.
      * intros [Hempty _]. exfalso. unfold is_weather_key in Hyes. cbn [existsb] in Hyes.
        repeat match type of Hempty with
        | context [py_eq_int key ?n] =>
            destruct (py_eq_int key n); [by apply insert_non_empty in Hempty|]
        end.
        cbn in Hyes. discriminate Hyes.
      * intros [_ Hall]. specialize (Hall item key (list_elem_of_here _ _) Hkey).
        congruence.
Qed.

(** C10 (as amended). The weather of a normalized Match is absent
    exactly when no entry of the record's "MIS" list has a "K" among 9,
    21, 23, 25, 27, 35: so also for a list that is not empty but has only
    other keys. *)
Theorem weather_absent_iff (match_data : json) (w w' : world) (m : Match) :
  _parse_single_match match_data w = (Ok m, w') →
  ∃ d, match_data = JDict d ∧
    (Match.weather m = None ↔
     ∀ item key, item ∈ mis_entries d → py_get item "K" JNull = Ok key →
                 is_weather_key key = false).
Proof.
  intros Hrun. apply parse_single_match_Ok in Hrun as (d & -> & Hm).
  cbv zeta in Hm.
  destruct Hm as (_ & _ & _ & _ & _ & _ & _ & _ & _ & _ & _ & Hw & _).
  exists d. split; [done|].
  unfold _parse_weather in Hw. unfold mis_entries.
  destruct (py_truthy (default (JList []) (d !! "MIS"))) eqn:Htruthy; cbn [negb] in Hw.
  - apply bind_Ok in Hw as (items & Hiter & Hw).
    apply bind_Ok in Hw as (wm & Hloop & Hw).
    pose proof (weather_loop_empty _ _ _ Hloop) as Hempty.
    assert (Hnone : Match.weather m = None ↔ wm = ∅).
    { destruct (decide (wm = ∅)) as [->|Hne].
      - rewrite bool_decide_eq_true_2 in Hw by done. by injection Hw as <-.
      - rewrite bool_decide_eq_false_2 in Hw by done.
        apply fmap_Ok in Hw as (wt & _ & ->). done. }
    rewrite Hnone, Hempty.
    destruct (d !! "MIS") as [[| | | |s|l|d']|];
      cbn [py_iter py_truthy default] in Hiter, Htruthy; try done.
    + destruct s as [|c s]; [done|].
      pose proof (chars_cons c s) as Hne.
      change (Ok (JStr <$> chars (String c s)) = Ok items) in Hiter.
      destruct (chars (String c s)) as [|h t]; [done|]. injection Hiter as <-.
      cbn [for_in fmap list_fmap] in Hloop.
      apply bind_Ok in Hloop as (? & Hbody & _).
      apply bind_Ok in Hbody as (? & Hk & _). discriminate Hk.
    + injection Hiter as <-. split; [by intros [_ ?] | by intros ?].
    + change (Ok (JStr <$> (map_to_list d').*1) = Ok items) in Hiter.
      destruct (map_to_list d') as [|[k v] rest] eqn:Hl; injection Hiter as <-.
      * apply map_to_list_empty_iff in Hl.
        by apply negb_true_iff, bool_decide_eq_false in Htruthy.
      * cbn [for_in fmap list_fmap fst] in Hloop.
        apply bind_Ok in Hloop as (? & Hbody & _).
        apply bind_Ok in Hbody as (? & Hk & _). discriminate Hk.
  - injection Hw as <-. split; [|done]. intros _.
    destruct (d !! "MIS") as [[| | | |s|l|d']|]; try by intros ?? ?%elem_of_nil.
    destruct l; [by intros ?? ?%elem_of_nil | done].
Qed.

(** Whatever the libraries do, an entry with a key of the table and no
    "V" makes a Weather without any field. *)
Lemma weather_of_entry_without_value (w : world) :
  ∃ m w',
    _parse_single_match record_weather_no_value w = (Ok m, w') ∧
    Match.weather m = Some (Weather.new None None None None None None).
Proof.
  destruct w as [t [|dt rest] out]; eexists _, _; split; vm_compute; reflexivity.
Qed.

(** ** When a record normalizes *)

Lemma py_bind_lift_Ok {A B} (a : A) (k : A → py B) (w : world) :
  (lift (Ok a) ≫= k) w = k a w.
Proof. reflexivity. Qed.

Lemma py_bind_run {A B} (m : py A) (k : A → py B) (a : A) (w w1 : world) :
  m w = (Ok a, w1) → (m ≫= k) w = k a w1.
Proof. intros Hm. unfold mbind, py_bind. by rewrite Hm. Qed.

Lemma datetime_now_Ok (w : world) : ∃ t w', datetime_now w = (Ok t, w').
Proof. unfold datetime_now. destruct (elapsed w); eauto. Qed.

Lemma parse_single_match_record_ok (d : gmap string json) (w : world) :
  (∃ m w', _parse_single_match (JDict d) w = (Ok m, w')) ↔ record_ok d.
Proof.
  split.
  - intros (m & w' & Hrun). unfold _parse_single_match in Hrun.
    cbn [py_get] in Hrun. rewrite !py_bind_lift_Ok in Hrun.
    apply py_bind_Ok in Hrun as (t & w1 & Ht & Hrun).
    apply lift_Ok in Hrun as [Hrun ->].
    unfold Team_init, Match_init in Hrun. inv_ok.
    unfold record_ok, is_Ok. cbv zeta.
    repeat (repeat match goal with
            | Hf : ?lhs = Ok _ |- context [?lhs] => rewrite Hf
            end; cbn [mbind result_bind]).
    split_and!; eauto.
    + intros Htruthy. rewrite Htruthy in Ht. apply lift_Ok in Ht as [Ht _]. eauto.
    + intros Htruthy.
      match goal with
      | Hwp : (if py_truthy _ then _ else _) = Ok _ |- _ =>
          rewrite Htruthy in Hwp; apply bind_Ok in Hwp as (p1 & Hp1 & _);
          apply py_get_Ok in Hp1 as (wp & Hwp & _)
      end.
      eauto.
  - unfold record_ok, is_Ok. cbv zeta.
    intros ((vI & HI) & (vL & HL) & (vSE & HSE) & (vLE & HLE) & (vCN & HCN) & HS &
            (v1 & H1) & (v1i & H1i) & (v1img & H1img) & (v1c & H1c) &
            (v2 & H2) & (v2i & H2i) & (v2img & H2img) & (v2c & H2c) &
            (vloc & Hloc) & (vtst & Htst) & Hwp &
            (vm & Hmk) & (vw & Hwt) & (vEC & HEC)).
    apply bind_Ok in H1img as (img1 & H1img & H1img').
    apply bind_Ok in H2img as (img2 & H2img & H2img').
    apply bind_Ok in Hloc as (loc & Hloc & Hloc').
    apply bind_Ok in Htst as (tst & Htst & Htst').
    assert (∃ t w1, (if py_truthy (default (JInt 0) (d !! "S"))
                     then lift (fromtimestamp (default (JInt 0) (d !! "S")))
                     else datetime_now) w = (Ok t, w1)) as (t & w1 & Ht).
    { destruct (py_truthy (default (JInt 0) (d !! "S"))); [|apply datetime_now_Ok].
      destruct HS as [t Ht]; [done|]. exists t, w. unfold lift. by rewrite Ht. }
    assert (∃ p, (if py_truthy (default (JDict ∅) (d !! "WP"))
                  then
                    p1 ← py_get (default (JDict ∅) (d !! "WP")) "P1" JNull;
                    px ← py_get (default (JDict ∅) (d !! "WP")) "PX" JNull;
                    p2 ← py_get (default (JDict ∅) (d !! "WP")) "P2" JNull;
                    Some <$> WinProbabilities_init p1 px p2
                  else Ok None) = Ok p) as (p & Hp).
    { destruct (py_truthy (default (JDict ∅) (d !! "WP"))); [|eauto].
      destruct Hwp as [wp ->]; [done|]. cbn. eauto. }
    unfold _parse_single_match. cbn [py_get]. rewrite !py_bind_lift_Ok.
    rewrite (py_bind_run _ _ _ _ _ Ht). unfold lift, Team_init, Match_init.
    repeat (repeat match goal with
            | Hf : ?lhs = Ok _ |- context [?lhs] => rewrite Hf
            end; cbn [mbind result_bind mret result_ret]).
    eauto.
Qed.

Lemma normalizes_record_ok (d : gmap string json) :
  normalizes (JDict d) ↔ record_ok d.
Proof.
  split.
  - intros Hn. apply (parse_single_match_record_ok d (World 0 [] [])), Hn.
  - intros Hok w. by apply parse_single_match_record_ok.
Qed.

(** A run that succeeds in one world succeeds in all. *)
Lemma parsed_normalizes (match_data : json) (w w' : world) (m : Match) :
  _parse_single_match match_data w = (Ok m, w') → normalizes match_data.
Proof.
  intros Hrun. pose proof Hrun as (d & -> & _)%parse_single_match_Ok.
  apply normalizes_record_ok, (parse_single_match_record_ok d w). eauto.
Qed.

Lemma record_ok_delete (d : gmap string json) (key : string) :
  key ∈ ["L"; "SE"; "LE"; "CN"; "S"; "O1"; "O1I"; "O2"; "O2I"; "SS"; "EC"] →
  record_ok d → record_ok (delete key d).
Proof.
  intros Hkey Hok.
  repeat (apply elem_of_cons in Hkey as [->|Hkey]; [shelve|]).
  by apply elem_of_nil in Hkey.
  Unshelve.
  all: unfold record_ok, first_image in *; cbn [py_get] in *; cbv zeta in *.
  all: rewrite ?lookup_delete_eq.
  all: rewrite ?lookup_delete_ne by done.
  all: cbn [default].
  all: destruct Hok as (? & ? & ? & ? & ? & ? & ? & ? & ? & ? & ? & ? & ? & ? & ? &
                        ? & ? & ? & ? & ?).
  all: split_and!; try done.
  all: try by eexists.
Qed.

(** ** Missing fields *)

(** C3 (as amended). On a mapping the decoder never raises for a key
    that is missing: it yields the default.  In a normalized Match the
    string fields name, sport, league, country and the team names are ""
    and the integer fields team id and event count are 0 when their key
    is missing, and a missing status code (default 0) gives a Match that
    is not live.  And a record that normalizes still normalizes without
    any of these fields, or without the start timestamp.  The match
    identifier is not among them. *)
Theorem passthrough_defaults (d : gmap string json) (w : world) :
  (∀ key dflt, d !! key = None → py_get (JDict d) key dflt = Ok dflt) ∧
  (∀ m w', _parse_single_match (JDict d) w = (Ok m, w') →
     (d !! "L" = None → Match.name m = "") ∧
     (d !! "SE" = None → Match.sport m = "") ∧
     (d !! "LE" = None → Match.league m = "") ∧
     (d !! "CN" = None → Match.country m = "") ∧
     (d !! "O1" = None → Team.name (Match.home_team m) = "") ∧
     (d !! "O2" = None → Team.name (Match.away_team m) = "") ∧
     (d !! "O1I" = None → Team.id (Match.home_team m) = 0) ∧
     (d !! "O2I" = None → Team.id (Match.away_team m) = 0) ∧
     (d !! "EC" = None → Match.event_count m = 0) ∧
     (d !! "SS" = None → Match.is_live m = false)) ∧
  (∀ key,
     key ∈ ["L"; "SE"; "LE"; "CN"; "S"; "O1"; "O1I"; "O2"; "O2I"; "SS"; "EC"] →
     normalizes (JDict d) → normalizes (JDict (delete key d))).
Proof.
  split_and!.
  - intros key dflt Hkey. cbn. by rewrite Hkey.
  - intros m w' Hrun. apply parse_single_match_Ok in Hrun as (d' & [= <-] & Hm).
    cbv zeta in Hm.
    destruct Hm as (_ & HL & HSE & HLE & HCN & _ & H1 & H1i & H2 & H2i & _ & _ & HSS & HEC).
    split_and!; intros Hkey;
      match goal with
      | Hf : context [d !! ?k] |- _ =>
          lazymatch type of Hkey with
          | d !! k = None =>
              rewrite Hkey in Hf; cbn in Hf; first [by injection Hf | exact Hf]
          end
      end.
  - intros key Hkey Hn. apply normalizes_record_ok, record_ok_delete; [done|].
    by apply normalizes_record_ok.
Qed.


(** ** The batch *)

Lemma parse_records_cons_ok (match_data : json) (rest : list json) (acc : list Match)
    (w w1 : world) (m : Match) :
  _parse_single_match match_data w = (Ok m, w1) →
  parse_records (match_data :: rest) acc w = parse_records rest (acc ++ [m]) w1.
Proof.
  intros Hrun. cbn [parse_records]. unfold try_except, mbind at 1, py_bind at 1.
  by rewrite (py_bind_run _ _ _ _ _ Hrun).
Qed.


(** A record that is not a mapping makes the handler itself raise: the
    loop stops there. *)
Lemma parse_records_cons_abort (match_data : json) (rest : list json) (acc : list Match)
    (w : world) :
  (∀ d, match_data ≠ JDict d) →
  parse_records (match_data :: rest) acc w = (Raise AttributeError, w).
Proof.
  intros Hnd. by destruct match_data as [| | | | | |d]; [..|destruct (Hnd d)].
Qed.



Lemma parse_matches_value (records : list json) (w : world) :
  _parse_matches (JDict {["Value" := JList records]}) w = parse_records records [] w.
Proof. unfold _parse_matches. cbn [py_get]. by rewrite lookup_singleton_eq. Qed.


Lemma parse_records_non_mapping (pre post : list json) (bad : json)
    (acc : list Match) (w : world) :
  Forall normalizes pre → (∀ d, bad ≠ JDict d) →
  ∃ w', parse_records (pre ++ bad :: post) acc w = (Raise AttributeError, w').
Proof.
  intros Hpre Hbad. revert w acc.
  induction Hpre as [|r pre Hr _ IH]; intros w acc.
  - exists w. by apply parse_records_cons_abort.
  - destruct (Hr w) as (m & w1 & Hrun). destruct (IH w1 (acc ++ [m])) as (w' & Hrest).
    exists w'. cbn [app]. by rewrite (parse_records_cons_ok _ _ _ _ _ _ Hrun).
Qed.

(** A record that is not a mapping among records that normalize: the
    batch raises. *)
Lemma batch_aborts_on_non_mapping (pre post : list json) (bad : json) (w : world) :
  Forall normalizes pre → (∀ d, bad ≠ JDict d) →
  ∃ w', _parse_matches (JDict {["Value" := JList (pre ++ bad :: post)]}) w =
        (Raise AttributeError, w').
Proof.
  intros Hpre Hbad.
  destruct (parse_records_non_mapping pre post bad [] w) as (w' & Hrun); [done..|].
  exists w'. by rewrite parse_matches_value.
Qed.

End properties.

(** ** The properties at work on the sample data *)

(** The end-to-end scenario of section 8 of the specification. *)
#[warnings="-inexact-float"]
Example end_to_end_scenario :
  ∃ m w',
    @_parse_single_match plain scenario_record sample_world = (Ok m, w') ∧
    Match.name m = "A vs B" ∧ Match.is_live m = true ∧
    (λ mk, (Market.outcome mk, Market.odds mk)) <$> Markets.match_result (Match.markets m) =
      [(1, 1.8%float); (2, 3.2%float); (3, 4.5%float)] ∧
    Markets.over_under (Match.markets m) = [] ∧
    Markets.handicap (Match.markets m) = [] ∧
    Markets.both_teams_score (Match.markets m) = [] ∧
    Markets.correct_score (Match.markets m) = [].
Proof. eexists _, _. split_and!; vm_compute; reflexivity. Qed.

Lemma categorize_market_table_witness :
  Markets.over_under
    (_categorize_market (Market.new 62 1 2.5 None false) (Markets.new [] [] [] [] [])) =
    [Market.new 62 1 2.5 None false] ∧
  _categorize_market (Market.new 99 1 2.5 None false) (Markets.new [] [] [] [] []) =
    Markets.new [] [] [] [] [].
Proof.
  destruct (categorize_market_table (Market.new 62 1 2.5 None false)
              (Markets.new [] [] [] [] [])) as (_ & Hou & _).
  destruct (categorize_market_table (Market.new 99 1 2.5 None false)
              (Markets.new [] [] [] [] [])) as (_ & _ & _ & _ & _ & Hother & _).
  split.
  - apply (Hou ltac:(cbn; in_list) OverUnder).
  - apply Hother. cbn. not_in_list.
Defined.

Lemma market_in_at_most_one_bucket_witness :
  ∃ m w',
    @_parse_single_match plain sample_record sample_world = (Ok m, w') ∧
    (∀ mk b1 b2,
       mk ∈ bucket_of b1 (Match.markets m) → mk ∈ bucket_of b2 (Match.markets m) →
       b1 = b2) ∧
    (∀ mk b,
       Market.type mk ∉ [1; 2; 8; 15; 17; 19; 62] → mk ∉ bucket_of b (Match.markets m)).
Proof.
  eexists _, _. split; [vm_compute; reflexivity|].
  eapply (@market_in_at_most_one_bucket plain sample_record sample_world).
  vm_compute; reflexivity.
Defined.

Example sample_parser_leagues :
  get_popular_leagues sample_parser = [("Premier", 2%nat); ("Serie A", 2%nat); ("Ligue 1", 1%nat)].
Proof. vm_compute. reflexivity. Qed.

Example sample_parser_good_odds :
  Match.id <$> get_matches_with_good_odds sample_parser 2 = [2; 3; 5] ∧
  Match.id <$> get_matches_with_good_odds sample_parser 3 = [3; 5].
Proof. split; vm_compute; reflexivity. Qed.

Example bad_mapping_is_skipped :
  ∃ p, @__init__ plain response_with_bad_mapping sample_world =
         (Ok p, World 1012 [] [(JStr "unknown", ValidationError)]) ∧
       Match.id <$> matches p = [1; 2].
Proof. eexists. split; vm_compute; reflexivity. Qed.

Lemma good_odds_monotone_witness :
  float_ge 3 2 = true ∧
  (∀ m, m ∈ get_matches_with_good_odds sample_parser 3 →
        m ∈ get_matches_with_good_odds sample_parser 2).
Proof.
  split; [reflexivity|].
  apply (good_odds_monotone sample_parser 2 3). reflexivity.
Defined.

Lemma passthrough_defaults_witness :
  ∃ m w',
    @_parse_single_match plain (bare_record 7) sample_world = (Ok m, w') ∧
    Match.name m = "" ∧ Match.league m = "" ∧
    Team.id (Match.home_team m) = 0 ∧ Match.event_count m = 0.
Proof.
  eexists _, _. split; [vm_compute; reflexivity|].
  destruct (@passthrough_defaults plain (list_to_map [("I", JInt 7)]) sample_world)
    as (_ & Hdefaults & _).
  edestruct Hdefaults as (HL & _ & HLE & _ & _ & _ & H1i & _ & HEC & _);
    [vm_compute; reflexivity|].
  split_and!; [apply HL | apply HLE | apply H1i | apply HEC]; reflexivity.
Defined.

(** C3, the claim as stated: a record that lacks "I" does not get the
    identifier 0; the identifier decodes to [None], and the record does
    not normalize. *)
Lemma missing_id_does_not_normalize :
  py_get (obj [("L", JStr "A vs B"); ("SE", JStr "Football")]) "I" JNull = Ok JNull ∧
  @_parse_single_match plain (obj [("L", JStr "A vs B"); ("SE", JStr "Football")])
    sample_world =
  (Raise ValidationError, World 1005 [7%N] []).
Proof. split; vm_compute; reflexivity. Qed.

Lemma start_time_of_timestamp_witness :
  ∃ m w',
    @_parse_single_match plain (bare_record 7) sample_world = (Ok m, w') ∧
    ∃ d, bare_record 7 = JDict d ∧
      (d !! "S" = None ∨ d !! "S" = Some (JInt 0) →
         datetime_now sample_world = (Ok (Match.start_time m), w') ∧
         wall sample_world ≤ Match.start_time m) ∧
      (∀ z, z ≠ 0 → d !! "S" = Some (JInt z) →
         @fromtimestamp plain (JInt z) = Ok (Match.start_time m)) ∧
      (if py_truthy (default (JInt 0) (d !! "S"))
       then @fromtimestamp plain (default (JInt 0) (d !! "S")) = Ok (Match.start_time m)
       else datetime_now sample_world = (Ok (Match.start_time m), w') ∧
            wall sample_world ≤ Match.start_time m).
Proof.
  eexists _, _. split; [vm_compute; reflexivity|].
  eapply (@start_time_of_timestamp plain (bare_record 7) sample_world).
  vm_compute; reflexivity.
Defined.

Example start_time_examples :
  (∃ m w', @_parse_single_match plain (bare_record 7) sample_world = (Ok m, w') ∧
           Match.start_time m = 1005) ∧
  (∃ m w', @_parse_single_match plain sample_record sample_world = (Ok m, w') ∧
           Match.start_time m = 1700000000000000).
Proof. split; eexists _, _; split; vm_compute; reflexivity. Qed.

Lemma is_main_only_from_primary_witness :
  ∃ m w',
    @_parse_single_match plain sample_record sample_world = (Ok m, w') ∧
    ∃ e ae,
      py_get sample_record "E" (JList []) = Ok e ∧
      py_get sample_record "AE" (JList []) = Ok ae ∧
      (∀ mk, @from_additional plain ae mk → Market.is_main mk = false) ∧
      (∀ entry mk, @main_market plain entry = Ok mk →
         ∃ ce, py_get entry "CE" JNull = Ok ce ∧ Market.is_main mk = py_eq_int ce 1) ∧
      (∀ mk b, mk ∈ bucket_of b (Match.markets m) →
         @from_primary plain e mk ∨ @from_additional plain ae mk) ∧
      (∀ mk b, mk ∈ bucket_of b (Match.markets m) → Market.is_main mk = true →
         @from_primary plain e mk).
Proof.
  eexists _, _. split; [vm_compute; reflexivity|].
  eapply (@is_main_only_from_primary plain sample_record sample_world).
  vm_compute; reflexivity.
Defined.

Example sample_record_is_main :
  ∃ m w',
    @_parse_single_match plain sample_record sample_world = (Ok m, w') ∧
    Market.is_main <$> Markets.match_result (Match.markets m) = [true; false; false] ∧
    Market.is_main <$> Markets.handicap (Match.markets m) = [false] ∧
    length (Markets.over_under (Match.markets m)) = 0%nat.
Proof. eexists _, _. split_and!; vm_compute; reflexivity. Qed.

Lemma parser_of_empty_response_witness :
  @__init__ plain (JDict status_only) sample_world =
    (Ok (new (JDict status_only) []), sample_world) ∧
  @_parse_matches plain (JDict (<["Success" := JBool false]> status_only)) sample_world =
    @_parse_matches plain (JDict status_only) sample_world.
Proof.
  destruct (@parser_of_empty_response plain status_only sample_world) as [Hempty Hstatus].
  split.
  - apply Hempty. left. reflexivity.
  - destruct (Hstatus "Success" (JBool false)) as [Hset _]; [|exact Hset].
    do 2 apply list_elem_of_further. apply list_elem_of_here.
Defined.

Lemma weather_absent_iff_witness :
  ∃ m w',
    @_parse_single_match plain sample_record sample_world = (Ok m, w') ∧
    ∃ d, sample_record = JDict d ∧
      (Match.weather m = None ↔
       ∀ item key, item ∈ mis_entries d → py_get item "K" JNull = Ok key →
                   is_weather_key key = false).
Proof.
  eexists _, _. split; [vm_compute; reflexivity|].
  eapply (@weather_absent_iff plain sample_record sample_world).
  vm_compute; reflexivity.
Defined.

(** C10, the claim as stated: an entry with a key of the table and no
    "V" makes a Weather, all of whose fields are [None]. *)
Lemma weather_present_without_field :
  ∃ m w',
    @_parse_single_match plain record_weather_no_value sample_world = (Ok m, w') ∧
    Match.weather m = Some (Weather.new None None None None None None).
Proof. eexists _, _. split; vm_compute; reflexivity. Qed.

Example weather_of_unmapped_keys_is_absent :
  ∃ m w',
    @_parse_single_match plain
      (obj [("I", JInt 1); ("MIS", JList [obj [("K", JInt 2); ("V", JStr "Stadium")]])])
      sample_world = (Ok m, w') ∧
    Match.weather m = None.
Proof. eexists _, _. split; vm_compute; reflexivity. Qed.

(** ** A record that is not a mapping *)

(** C2, at the response whose records are {"I": 1}, the string "oops"
    and {"I": 2}: the first and the third normalize, the second does not,
    and the construction of the parser raises, from the handler of the
    failure, instead of returning the two matches. *)
Theorem non_mapping_record_aborts_batch :
  (∃ m w', @_parse_single_match plain (bare_record 1) sample_world = (Ok m, w')) ∧
  (∃ m w', @_parse_single_match plain (bare_record 2) sample_world = (Ok m, w')) ∧
  @_parse_single_match plain (JStr "oops") sample_world = (Raise AttributeError, sample_world) ∧
  @__init__ plain response_with_string sample_world =
    (Raise AttributeError, World 1005 [7%N] []).
Proof. split_and!; try eexists _, _; vm_compute; reflexivity. Qed.


Lemma batch_aborts_on_non_mapping_witness :
  ∃ w',
    @_parse_matches plain
      (JDict {["Value" := JList ([bare_record 1] ++ JStr "oops" :: [bare_record 2])]})
      sample_world = (Raise AttributeError, w').
Proof.
  apply (@batch_aborts_on_non_mapping plain [bare_record 1] [bare_record 2]
           (JStr "oops") sample_world).
  - constructor; [|constructor].
    eapply (@parsed_normalizes plain _ sample_world). vm_compute; reflexivity.
  - intros d. discriminate.
Defined.

(** * More of the parser *)

Section decoding.
Context `{External}.

(** ** The other fields of a record *)

(** What a successful [_parse_single_match] says of the fields that
    [parse_single_match_Ok] leaves out. *)
Lemma parse_single_match_Ok_rest (d : gmap string json) (w w' : world) (m : Match) :
  _parse_single_match (JDict d) w = (Ok m, w') →
  let get key dflt := default dflt (d !! key) in
  first_image (JDict d) "O1IMG" ≫= validate_optional validate_str
    = Ok (Team.image (Match.home_team m)) ∧
  validate_optional validate_int (get "O1C" JNull) = Ok (Team.country (Match.home_team m)) ∧
  first_image (JDict d) "O2IMG" ≫= validate_optional validate_str
    = Ok (Team.image (Match.away_team m)) ∧
  validate_optional validate_int (get "O2C" JNull) = Ok (Team.country (Match.away_team m)) ∧
  get_if (get "MIO" (JDict ∅)) "Loc" ≫= validate_optional validate_str = Ok (Match.venue m) ∧
  get_if (get "MIO" (JDict ∅)) "TSt" ≫= validate_optional validate_str = Ok (Match.stage m) ∧
  (if py_truthy (get "WP" (JDict ∅))
   then (∃ wp, get "WP" (JDict ∅) = JDict wp) ∧
        Match.probabilities m = Some (WinProbabilities.new None None None)
   else Match.probabilities m = None).
Proof.
  intros Hrun. unfold _parse_single_match in Hrun.
  cbn [py_get] in Hrun. rewrite !py_bind_lift_Ok in Hrun.
  apply py_bind_Ok in Hrun as (t & w1 & Ht & Hrun).
  apply lift_Ok in Hrun as [Hrun ->].
  unfold Team_init, Match_init in Hrun. inv_ok. cbv zeta. cbn [Match.home_team Match.away_team
    Team.image Team.country Match.venue Match.stage Match.probabilities].
  repeat (repeat match goal with
          | Hf : ?lhs = Ok _ |- context [?lhs] => rewrite Hf
          end; cbn [mbind result_bind]).
  split_and!; try done.
  match goal with
  | Hwp : (if py_truthy _ then _ else _) = Ok _ |- _ =>
      destruct (py_truthy (default (JDict ∅) (d !! "WP"))); [|by injection Hwp as <-];
      apply bind_Ok in Hwp as (p1 & Hp1 & Hwp);
      apply py_get_Ok in Hp1 as (wp & Hwpd & _);
      rewrite Hwpd in Hwp |- *; cbn in Hwp; injection Hwp as <-
  end.
  eauto.
Qed.

(** A present field of the right type reaches the Match unchanged: the
    identifier, the four strings, the team names and ids and the event
    count.  A normalized Match always has an identifier in its record,
    and it is live exactly when the record's "SS" equals 1. *)
Theorem present_fields_pass_through (d : gmap string json) (w w' : world) (m : Match) :
  _parse_single_match (JDict d) w = (Ok m, w') →
  (∃ v, d !! "I" = Some v ∧ v ≠ JNull) ∧
  (∀ z, d !! "I" = Some (JInt z) → Match.id m = z) ∧
  (∀ s, d !! "L" = Some (JStr s) → Match.name m = s) ∧
  (∀ s, d !! "SE" = Some (JStr s) → Match.sport m = s) ∧
  (∀ s, d !! "LE" = Some (JStr s) → Match.league m = s) ∧
  (∀ s, d !! "CN" = Some (JStr s) → Match.country m = s) ∧
  (∀ s, d !! "O1" = Some (JStr s) → Team.name (Match.home_team m) = s) ∧
  (∀ z, d !! "O1I" = Some (JInt z) → Team.id (Match.home_team m) = z) ∧
  (∀ s, d !! "O2" = Some (JStr s) → Team.name (Match.away_team m) = s) ∧
  (∀ z, d !! "O2I" = Some (JInt z) → Team.id (Match.away_team m) = z) ∧
  (∀ z, d !! "EC" = Some (JInt z) → Match.event_count m = z) ∧
  (Match.is_live m = true ↔ ∃ v, d !! "SS" = Some v ∧ py_eq_int v 1 = true).
Proof.
  intros Hrun. apply parse_single_match_Ok in Hrun as (d' & [= <-] & Hm).
  cbv zeta in Hm.
  destruct Hm as (HI & HL & HSE & HLE & HCN & _ & H1 & H1i & H2 & H2i & _ & _ & HSS & HEC).
  split_and!.
  - destruct (d !! "I") as [v|]; [|done]. exists v. split; [done|]. by intros ->.
  - intros z Hd. rewrite Hd in HI. by injection HI.
  - intros s Hd. rewrite Hd in HL. by injection HL.
  - intros s Hd. rewrite Hd in HSE. by injection HSE.
  - intros s Hd. rewrite Hd in HLE. by injection HLE.
  - intros s Hd. rewrite Hd in HCN. by injection HCN.
  - intros s Hd. rewrite Hd in H1. by injection H1.
  - intros z Hd. rewrite Hd in H1i. by injection H1i.
  - intros s Hd. rewrite Hd in H2. by injection H2.
  - intros z Hd. rewrite Hd in H2i. by injection H2i.
  - intros z Hd. rewrite Hd in HEC. by injection HEC.
  - rewrite HSS. destruct (d !! "SS") as [v|]; cbn.
    + split; [eauto | by intros (? & [= <-] & ?)].
    + split; [done | by intros (? & ? & ?)].
Qed.

(** The image of a team is absent when the record has no image array or
    an empty one (or anything falsy there), and is the first element of
    the array when that is a string. *)
Theorem team_image_decoding (d : gmap string json) (w w' : world) (m : Match) :
  _parse_single_match (JDict d) w = (Ok m, w') →
  (py_truthy (default JNull (d !! "O1IMG")) = false →
     Team.image (Match.home_team m) = None) ∧
  (∀ s rest, d !! "O1IMG" = Some (JList (JStr s :: rest)) →
     Team.image (Match.home_team m) = Some s) ∧
  (py_truthy (default JNull (d !! "O2IMG")) = false →
     Team.image (Match.away_team m) = None) ∧
  (∀ s rest, d !! "O2IMG" = Some (JList (JStr s :: rest)) →
     Team.image (Match.away_team m) = Some s).
Proof.
  intros Hrun. apply parse_single_match_Ok_rest in Hrun. cbv zeta in Hrun.
  destruct Hrun as (Himg1 & _ & Himg2 & _).
  unfold first_image in Himg1, Himg2. cbn [py_get] in Himg1, Himg2. cbn in Himg1, Himg2.
  split_and!.
  - intros Hf. rewrite Hf in Himg1. by injection Himg1.
  - intros s rest Hd. rewrite Hd in Himg1. by injection Himg1.
  - intros Hf. rewrite Hf in Himg2. by injection Himg2.
  - intros s rest Hd. rewrite Hd in Himg2. by injection Himg2.
Qed.

(** Venue and stage are read from the match-info object: both are absent
    when the object is absent or empty; when it is a non-empty mapping
    each is the string under "Loc" (resp. "TSt"), or absent when the key
    is; and a record whose match info is truthy without being a mapping
    never normalizes. *)
Theorem venue_stage_decoding (d : gmap string json) (w w' : world) (m : Match) :
  _parse_single_match (JDict d) w = (Ok m, w') →
  (py_truthy (default (JDict ∅) (d !! "MIO")) = false →
     Match.venue m = None ∧ Match.stage m = None) ∧
  (py_truthy (default (JDict ∅) (d !! "MIO")) = true →
     ∃ info, d !! "MIO" = Some (JDict info) ∧
       (info !! "Loc" = None → Match.venue m = None) ∧
       (∀ s, info !! "Loc" = Some (JStr s) → Match.venue m = Some s) ∧
       (info !! "TSt" = None → Match.stage m = None) ∧
       (∀ s, info !! "TSt" = Some (JStr s) → Match.stage m = Some s)).
Proof.
  intros Hrun. apply parse_single_match_Ok_rest in Hrun. cbv zeta in Hrun.
  destruct Hrun as (_ & _ & _ & _ & Hloc & Htst & _).
  unfold get_if in Hloc, Htst. split.
  - intros Hf. rewrite Hf in Hloc, Htst. cbn in Hloc, Htst.
    split; [by injection Hloc | by injection Htst].
  - intros Ht. rewrite Ht in Hloc, Htst.
    apply bind_Ok in Hloc as (loc & Hloc & Hvenue).
    apply bind_Ok in Htst as (tst & Htst & Hstage).
    apply py_get_Ok in Hloc as (info & Hinfo & ->).
    apply py_get_Ok in Htst as (info' & Hinfo' & ->).
    rewrite Hinfo in Hinfo'. injection Hinfo' as <-.
    destruct (d !! "MIO") as [v|] eqn:Hd; [|done]. cbn in Hinfo. subst v.
    exists info. split_and!; [done|..].
    + intros Hk. rewrite Hk in Hvenue. by injection Hvenue.
    + intros s Hk. rewrite Hk in Hvenue. by injection Hvenue.
    + intros Hk. rewrite Hk in Hstage. by injection Hstage.
    + intros s Hk. rewrite Hk in Hstage. by injection Hstage.
Qed.

(** The probabilities of a normalized Match are absent exactly when the
    record has no probability object, or a falsy one; when they are
    present none of the three is populated, whatever the object holds:
    [WinProbabilities] is called with the names of fields that are
    declared under aliases. *)
Theorem probabilities_never_populated (d : gmap string json) (w w' : world) (m : Match) :
  _parse_single_match (JDict d) w = (Ok m, w') →
  (Match.probabilities m = None ↔ py_truthy (default (JDict ∅) (d !! "WP")) = false) ∧
  (∀ p, Match.probabilities m = Some p →
     WinProbabilities.home_win p = None ∧ WinProbabilities.draw p = None ∧
     WinProbabilities.away_win p = None).
Proof.
  intros Hrun. apply parse_single_match_Ok_rest in Hrun. cbv zeta in Hrun.
  destruct Hrun as (_ & _ & _ & _ & _ & _ & Hwp).
  destruct (py_truthy (default (JDict ∅) (d !! "WP"))).
  - destruct Hwp as [_ ->]. split; [done|]. by intros p [= <-].
  - rewrite Hwp. split; [done|]. by intros p.
Qed.

(** ** A key that is present with [null] *)

Lemma not_record_ok_fails (d : gmap string json) : ¬ record_ok d → fails (JDict d).
Proof.
  intros Hno w. destruct (_parse_single_match (JDict d) w) as [[m|e] w'] eqn:Hrun; [|eauto].
  destruct Hno. apply (parse_single_match_record_ok d w). eauto.
Qed.

Lemma parse_markets_null_additional (e : json) : ¬ is_Ok (_parse_markets e JNull).
Proof.
  intros [ms Hrun]. unfold _parse_markets in Hrun.
  apply bind_Ok in Hrun as (entries & _ & Hrun).
  apply bind_Ok in Hrun as (ms1 & _ & Hrun).
  by apply bind_Ok in Hrun as (groups & Hiter & _).
Qed.

(** For the start timestamp, the status code, the image arrays, the team
    countries, the match info, the probabilities and the misc-info list,
    a [null] does what a missing key does.  For the identifier, the
    strings, the team ids, the event count and the two market arrays a
    [null] makes the record fail, although a missing key (the identifier
    apart) would not. *)
Theorem null_field (d : gmap string json) (w : world) :
  (∀ key,
     key ∈ ["S"; "SS"; "O1IMG"; "O1C"; "O2IMG"; "O2C"; "MIO"; "WP"; "MIS"] →
     _parse_single_match (JDict (<[key:=JNull]> d)) w =
     _parse_single_match (JDict (delete key d)) w) ∧
  (∀ key,
     key ∈ ["I"; "L"; "SE"; "LE"; "CN"; "O1"; "O1I"; "O2"; "O2I"; "EC"; "E"; "AE"] →
     fails (JDict (<[key:=JNull]> d))).
Proof.
  split.
  - intros key Hkey.
    repeat (apply elem_of_cons in Hkey as [->|Hkey]; [shelve|]).
    by apply elem_of_nil in Hkey.
    Unshelve.
    all: unfold _parse_single_match, first_image; cbn [py_get].
    all: rewrite ?lookup_insert_eq, ?lookup_delete_eq.
    all: rewrite ?lookup_insert_ne, ?lookup_delete_ne by done.
    all: reflexivity.
  - intros key Hkey. apply not_record_ok_fails.
    repeat (apply elem_of_cons in Hkey as [->|Hkey]; [shelve|]).
    by apply elem_of_nil in Hkey.
    Unshelve.
    all: unfold record_ok; cbv zeta.
    all: rewrite ?lookup_insert_eq.
    all: intros (HI & HL & HSE & HLE & HCN & _ & H1 & H1i & _ & _ & H2 & H2i & _ & _ &
                 _ & _ & _ & Hmk & _ & HEC).
    all: try (by destruct HI); try (by destruct HL); try (by destruct HSE);
      try (by destruct HLE); try (by destruct HCN); try (by destruct H1);
      try (by destruct H1i); try (by destruct H2); try (by destruct H2i);
      try (by destruct HEC).
    + by destruct Hmk.
    + rewrite lookup_insert_ne in Hmk by done. by apply parse_markets_null_additional in Hmk.
Qed.

(** ** The markets, in order *)

Lemma for_in_ext {S : Type} (body1 body2 : json → S → result S) (items : list json) (s : S) :
  (∀ x t, body1 x t = body2 x t) → for_in body1 items s = for_in body2 items s.
Proof.
  intros Hext. revert s. induction items as [|x items IH]; intros s; [done|].
  cbn. rewrite Hext. destruct (body2 x s); cbn; [apply IH | done].
Qed.

(** A loop that builds a value from each item and folds it into the
    object is the building of all the values followed by the folding. *)
Lemma for_in_collect {A S : Type} (f : json → result A) (g : S → A → S)
    (items : list json) (s : S) :
  for_in (λ x t, a ← f x; mret (g t a)) items s =
  (l ← collect f items; mret (foldl g s l)).
Proof.
  revert s. induction items as [|x items IH]; intros s; [done|].
  cbn. destruct (f x) as [a|e]; cbn; [|done].
  rewrite IH. by destruct (collect f items).
Qed.

Lemma bucket_of_file_all (b : bucket) (markets : Markets) (built : list Market) :
  bucket_of b (file_all markets built) = bucket_of b markets ++ of_category b built.
Proof.
  unfold file_all, of_category. revert markets.
  induction built as [|mk built IH]; intros markets; [by rewrite filter_nil, app_nil_r|].
  rewrite filter_cons. cbn [foldl]. rewrite IH, categorize_bucket, <-app_assoc.
  by case_decide.
Qed.

Lemma parse_markets_fused (e ae : json) :
  _parse_markets e ae =
  (built1 ← primary_markets e;
   built2 ← additional_markets ae;
   mret (file_all (Markets.new [] [] [] [] []) (built1 ++ built2))).
Proof.
  unfold _parse_markets, primary_markets, additional_markets.
  destruct (py_iter e) as [entries|err]; cbn; [|done].
  rewrite (for_in_collect main_market (λ ms mk, _categorize_market mk ms)).
  destruct (collect main_market entries) as [built1|err]; cbn; [|done].
  destruct (py_iter ae) as [groups|err]; cbn; [|done].
  rewrite (for_in_ext _ (λ g t, l ← group_markets g; mret (file_all t l))).
  2:{ intros g t. unfold group_markets.
      destruct (py_get g "ME" (JList [])) as [me|err]; cbn; [|done].
      destruct (py_iter me) as [entries'|err]; cbn; [|done].
      apply (for_in_collect (additional_market g) (λ ms mk, _categorize_market mk ms)). }
  rewrite (for_in_collect group_markets file_all).
  destruct (collect group_markets groups) as [built|err]; cbn; [|done].
  f_equal. unfold file_all. rewrite foldl_app. generalize (foldl
    (λ ms mk, _categorize_market mk ms) (Markets.new [] [] [] [] []) built1).
  induction built as [|l built IH]; intros ms; cbn; [done|].
  by rewrite foldl_app, IH.
Qed.

Lemma markets_eq (ms1 ms2 : Markets) :
  (∀ b, bucket_of b ms1 = bucket_of b ms2) → ms1 = ms2.
Proof.
  intros Hb. destruct ms1, ms2.
  pose proof (Hb MatchResult). pose proof (Hb OverUnder). pose proof (Hb Handicap).
  pose proof (Hb BothTeamsScore). pose proof (Hb CorrectScore). cbn in *. congruence.
Qed.

(** [_parse_markets] succeeds exactly when every entry of the primary
    array and of every group of the additional array builds a market; and
    then each bucket holds, in order, the built markets of its category:
    those of the primary array first, in array order, then those of the
    groups, group after group.  So no market of a known type code is
    lost, doubled or moved. *)
Theorem parse_markets_in_order (e ae : json) (markets : Markets) :
  _parse_markets e ae = Ok markets ↔
  ∃ built1 built2,
    primary_markets e = Ok built1 ∧ additional_markets ae = Ok built2 ∧
    ∀ b, bucket_of b markets = of_category b (built1 ++ built2).
Proof.
  rewrite parse_markets_fused. split.
  - intros Hrun. apply bind_Ok in Hrun as (built1 & H1 & Hrun).
    apply bind_Ok in Hrun as (built2 & H2 & [= <-]).
    exists built1, built2. split_and!; [done..|].
    intros b. rewrite bucket_of_file_all. by destruct b.
  - intros (built1 & built2 & -> & -> & Hb). cbn. f_equal. apply markets_eq.
    intros b. rewrite bucket_of_file_all, Hb. by destruct b.
Qed.

Lemma Market_init_decoded (g d : gmap string json) (is_main : bool) (mk : Market) :
  Market_init (default (JInt 0) (g !! "G")) (default (JInt 0) (d !! "T"))
    (default (JFloat 0) (d !! "C")) (default JNull (d !! "P")) is_main = Ok mk →
  decoded_from g d mk ∧ Market.is_main mk = is_main.
Proof.
  unfold Market_init. intros Hrun.
  apply bind_Ok in Hrun as (t & Ht & Hrun). apply bind_Ok in Hrun as (o & Ho & Hrun).
  apply bind_Ok in Hrun as (c & Hc & Hrun). apply bind_Ok in Hrun as (p & Hp & [= <-]).
  split; [|done]. unfold decoded_from. cbn. split_and!.
  - intros Hk. rewrite Hk in Ht. by injection Ht.
  - intros z Hk. rewrite Hk in Ht. by injection Ht.
  - intros Hk. rewrite Hk in Ho. by injection Ho.
  - intros z Hk. rewrite Hk in Ho. by injection Ho.
  - intros Hk. rewrite Hk in Hc. by injection Hc.
  - intros f Hk. rewrite Hk in Hc. by injection Hc.
  - intros [Hk|Hk]; rewrite Hk in Hp; by injection Hp.
  - intros f Hk. rewrite Hk in Hp. by injection Hp.
Qed.

(** A market of the primary array takes everything from its entry; a
    market of an additional group takes its type code from the group and
    the rest from its entry, whose own "G" is not read.  Missing keys
    give type 0, outcome 0, odds 0.0 and no parameter; so a primary
    entry without "G" builds a market of type 0, which no bucket keeps. *)
Theorem market_entry_decoding (g d : gmap string json) :
  (∀ mk, main_market (JDict d) = Ok mk → decoded_from d d mk) ∧
  (∀ mk, additional_market (JDict g) (JDict d) = Ok mk →
     decoded_from g d mk ∧
     ∀ v, additional_market (JDict g) (JDict (<["G":=v]> d)) = Ok mk) ∧
  (∀ mk, main_market (JDict d) = Ok mk → d !! "G" = None →
     ∀ markets, _categorize_market mk markets = markets).
Proof.
  assert (Hmain : ∀ mk, main_market (JDict d) = Ok mk → decoded_from d d mk).
  { intros mk Hrun. unfold main_market in Hrun. cbn [py_get] in Hrun. cbn in Hrun.
    by apply Market_init_decoded in Hrun as [? _]. }
  split_and!; [done| |].
  - intros mk Hrun. unfold additional_market in *. cbn [py_get] in *.
    split.
    + cbn in Hrun. by apply Market_init_decoded in Hrun as [? _].
    + intros v. by rewrite !lookup_insert_ne.
  - intros mk Hrun Hg markets. apply Hmain in Hrun as (Ht & _).
    unfold _categorize_market. by rewrite (Ht Hg).
Qed.

(** ** Weather: the last entry of a key wins *)

Lemma py_eq_int_inj (v : json) (a b : Z) :
  py_eq_int v a = true → py_eq_int v b = true → a = b.
Proof.
  destruct v as [|c|z|f|s|l|d]; cbn; try done; try lia.
  destruct (float_to_Z f); [lia|done].
Qed.

Lemma last_cons_Some {A} (x : A) (l : list A) :
  last (x :: l) = Some (default x (last l)).
Proof.
  revert x. induction l as [|y l IH]; intros x; [done|].
  change (last (x :: y :: l)) with (last (y :: l)). by rewrite IH.
Qed.

Lemma last_value_cons (n : Z) (item : json) (items : list json) :
  last_value n (item :: items) =
  match last_value n items with
  | Some v => Some v
  | None => entry_value n item
  end.
Proof.
  unfold last_value. cbn [omap list_omap]. destruct (entry_value n item) as [v|]; cbn.
  - rewrite last_cons_Some. by destruct (last _).
  - by destruct (last _).
Qed.

(** One turn of the loop of [_parse_weather], seen from one field. *)
Lemma weather_step_lookup (field : string) (n : Z) (key value : json)
    (weather_map : gmap string json) :
  (field, n) ∈ [("temperature", 9); ("condition", 21); ("humidity", 27);
                ("wind_speed", 23); ("pressure", 25); ("precipitation", 35)] →
  (if py_eq_int key 9 then <["temperature" := value]> weather_map
   else if py_eq_int key 21 then <["condition" := value]> weather_map
   else if py_eq_int key 27 then <["humidity" := value]> weather_map
   else if py_eq_int key 23 then <["wind_speed" := value]> weather_map
   else if py_eq_int key 25 then <["pressure" := value]> weather_map
   else if py_eq_int key 35 then <["precipitation" := value]> weather_map
   else weather_map) !! field =
  if py_eq_int key n then Some value else weather_map !! field.
Proof.
  intros Hfield.
  destruct (py_eq_int key 9) eqn:E9, (py_eq_int key 21) eqn:E21,
    (py_eq_int key 27) eqn:E27, (py_eq_int key 23) eqn:E23,
    (py_eq_int key 25) eqn:E25, (py_eq_int key 35) eqn:E35.
  all: repeat (apply elem_of_cons in Hfield as [[= -> ->]|Hfield];
    [rewrite ?E9, ?E21, ?E27, ?E23, ?E25, ?E35;
     first [ done
           | by rewrite lookup_insert_eq
           | by rewrite lookup_insert_ne
           | exfalso;
             match goal with
             | Ha : py_eq_int ?k ?a = true, Hb : py_eq_int ?k ?b = true |- _ =>
                 pose proof (py_eq_int_inj _ _ _ Ha Hb) as Hab; discriminate Hab
             end ]|]).
  all: by apply elem_of_nil in Hfield.
Qed.

(** What the loop of [_parse_weather] leaves under the name of a field:
    the value of the last item with the field's key. *)
Lemma weather_loop_lookup (field : string) (n : Z) (items : list json)
    (wm0 wm : gmap string json) :
  (field, n) ∈ [("temperature", 9); ("condition", 21); ("humidity", 27);
                ("wind_speed", 23); ("pressure", 25); ("precipitation", 35)] →
  for_in (λ item (weather_map : gmap string json),
      key ← py_get item "K" JNull;
      value ← py_get item "V" JNull;
      mret (if py_eq_int key 9 then <["temperature" := value]> weather_map
            else if py_eq_int key 21 then <["condition" := value]> weather_map
            else if py_eq_int key 27 then <["humidity" := value]> weather_map
            else if py_eq_int key 23 then <["wind_speed" := value]> weather_map
            else if py_eq_int key 25 then <["pressure" := value]> weather_map
            else if py_eq_int key 35 then <["precipitation" := value]> weather_map
            else weather_map)) items wm0 = Ok wm →
  wm !! field =
  match last_value n items with
  | Some v => Some v
  | None => wm0 !! field
  end.
Proof.
  intros Hfield. revert wm0. induction items as [|item items IH]; intros wm0 Hrun.
  - by injection Hrun as <-.
  - cbn [for_in] in Hrun. apply bind_Ok in Hrun as (wm1 & Hbody & Hrun).
    rewrite (IH _ Hrun), last_value_cons. clear IH Hrun.
    destruct (last_value n items) as [v|]; [done|].
    apply bind_Ok in Hbody as (key & Hkey & Hbody).
    apply bind_Ok in Hbody as (value & Hvalue & [= <-]).
    apply py_get_Ok in Hkey as (d & -> & ->).
    apply py_get_Ok in Hvalue as (d' & [= <-] & ->).
    rewrite (weather_step_lookup field n) by done. cbn [entry_value].
    by destruct (py_eq_int _ n).
Qed.

(** Each field of the Weather that [_parse_weather] makes of a list is
    the "V" of the last entry of the list with the field's key (9
    temperature, 21 condition, 27 humidity, 23 wind_speed, 25 pressure,
    35 precipitation): a later entry replaces an earlier one of the same
    key; a field without entry is absent. *)
Theorem weather_last_entry_wins (items : list json) (wt : Weather) :
  _parse_weather (JList items) = Ok (Some wt) →
  weather_field (last_value 9 items) = Ok (Weather.temperature wt) ∧
  weather_field (last_value 21 items) = Ok (Weather.condition wt) ∧
  weather_field (last_value 27 items) = Ok (Weather.humidity wt) ∧
  weather_field (last_value 23 items) = Ok (Weather.wind_speed wt) ∧
  weather_field (last_value 25 items) = Ok (Weather.pressure wt) ∧
  weather_field (last_value 35 items) = Ok (Weather.precipitation wt).
Proof.
  unfold _parse_weather. intros Hrun.
  destruct (negb (py_truthy (JList items))); [done|].
  apply bind_Ok in Hrun as (items' & [= <-] & Hrun).
  apply bind_Ok in Hrun as (wm & Hloop & Hrun).
  destruct (bool_decide (wm = ∅)); [done|].
  apply fmap_Ok in Hrun as (wt' & Hinit & [= ->]).
  unfold Weather_init in Hinit.
  pose proof (λ field n Hf, weather_loop_lookup field n items ∅ wm Hf Hloop) as Hlook.
  rewrite (Hlook "temperature" 9), (Hlook "condition" 21), (Hlook "humidity" 27),
    (Hlook "wind_speed" 23), (Hlook "pressure" 25), (Hlook "precipitation" 35) in Hinit
    by in_list.
  rewrite !lookup_empty in Hinit.
  apply bind_Ok in Hinit as (f1 & H1 & Hinit). apply bind_Ok in Hinit as (f2 & H2 & Hinit).
  apply bind_Ok in Hinit as (f3 & H3 & Hinit). apply bind_Ok in Hinit as (f4 & H4 & Hinit).
  apply bind_Ok in Hinit as (f5 & H5 & Hinit). apply bind_Ok in Hinit as (f6 & H6 & [= <-]).
  unfold weather_field. cbn.
  split_and!;
    [destruct (last_value 9 items) | destruct (last_value 21 items)
    |destruct (last_value 27 items) | destruct (last_value 23 items)
    |destruct (last_value 25 items) | destruct (last_value 35 items)]; done.
Qed.

(** ** The batch, for any number of failing mappings *)





End decoding.

(** * The views by sport and the endpoints *)

Lemma filter_filter_and {A} (p q : A → bool) (l : list A) :
  List.filter q (List.filter p l) = List.filter (λ x, p x && q x) l.
Proof.
  induction l as [|x l IH]; [done|]. cbn.
  destruct (p x); cbn; [|done]. destruct (q x); by rewrite IH.
Qed.

Lemma filter_true {A} (l : list A) : List.filter (λ _, true) l = l.
Proof. induction l as [|x l IH]; [done|]. cbn. by rewrite IH. Qed.

Lemma filter_sublist {A} (p : A → bool) (l : list A) : sublist (List.filter p l) l.
Proof.
  induction l as [|x l IH]; [done|]. cbn.
  destruct (p x); [by apply sublist_skip | by apply sublist_cons].
Qed.

Lemma filter_disjoint_length {A} (p q : A → bool) (l : list A) :
  (∀ x, p x = true → q x = false) →
  (length (List.filter p l) + length (List.filter q l) ≤ length l)%nat.
Proof.
  intros Hpq. induction l as [|x l IH]; [done|]. cbn.
  destruct (p x) eqn:Hp; [rewrite (Hpq x Hp)|destruct (q x)]; cbn; lia.
Qed.

Lemma filter_length_le {A} (p : A → bool) (l : list A) :
  (length (List.filter p l) ≤ length l)%nat.
Proof. apply sublist_length, filter_sublist. Qed.

Lemma elem_of_filter_bool {A} (p : A → bool) (l : list A) (x : A) :
  x ∈ List.filter p l ↔ x ∈ l ∧ p x = true.
Proof. by rewrite !list_elem_of_In, filter_In. Qed.

Lemma slice_to_sublist {A} (l : list A) (limit : Z) : sublist (slice_to l limit) l.
Proof. unfold slice_to. destruct (0 <=? limit); apply sublist_take. Qed.

Lemma slice_to_length {A} (l : list A) (limit : Z) :
  length (slice_to l limit) =
  if 0 <=? limit then (Z.to_nat limit `min` length l)%nat
  else (length l - Z.to_nat (- limit))%nat.
Proof.
  unfold slice_to. destruct (0 <=? limit); rewrite length_take; lia.
Qed.

Lemma slice_to_all {A} (l : list A) (limit : Z) :
  Z.of_nat (length l) ≤ limit → slice_to l limit = l.
Proof.
  intros Hle. unfold slice_to. destruct (Z.leb_spec 0 limit); [|lia].
  apply take_ge. lia.
Qed.

Section views.
Context `{Casing}.

(** On a string of ASCII characters [lower] is the lowercasing of the
    letters A to Z. *)
Lemma chars_ascii_cons (c : ascii) (s : string) :
  ascii_only s = true → chars (String c s) = String c EmptyString :: chars s.
Proof.
  intros Hs. cbn [chars]. destruct (chars s) as [|h t]; [done|].
  destruct s as [|c' s']; [done|]. cbn in Hs |- *.
  apply andb_true_iff in Hs as [Hc' _]. unfold is_ascii in Hc'. unfold is_continuation.
  destruct (N.leb_spec 128 (N_of_ascii c')); [|done].
  apply N.ltb_lt in Hc'. lia.
Qed.

Lemma lower_from_ascii (before : list string) (s : string) :
  ascii_only s = true → lower_from before (chars s) = ascii_lower s.
Proof.
  revert before. induction s as [|c s IH]; intros before Hs; [done|].
  cbn in Hs. apply andb_true_iff in Hs as [Hc Hs].
  rewrite chars_ascii_cons by done. cbn [lower_from lower_char ascii_lower].
  rewrite Hc. cbn. by rewrite IH.
Qed.

Lemma py_lower_ascii (s : string) : ascii_only s = true → py_lower s = ascii_lower s.
Proof. apply lower_from_ascii. Qed.


Lemma lower_football : py_lower "football" = "football".
Proof. by rewrite py_lower_ascii. Qed.

Lemma lower_cricket : py_lower "cricket" = "cricket".
Proof. by rewrite py_lower_ascii. Qed.

(** The three views of the parser keep the order of the Dataset; no
    match is both in the football and in the cricket view, so the two
    together are never more than the Dataset; and a match whose sport is
    written in ASCII is in the football (cricket) view exactly when its
    sport, with A to Z lowered, reads football (cricket). *)
Theorem sport_views (s : self) :
  sublist (get_football_matches s) (matches s) ∧
  sublist (get_cricket_matches s) (matches s) ∧
  sublist (get_live_matches s) (matches s) ∧
  (∀ m, m ∈ get_football_matches s → m ∉ get_cricket_matches s) ∧
  (length (get_football_matches s) + length (get_cricket_matches s)
     ≤ length (matches s))%nat ∧
  (∀ m, m ∈ get_live_matches s ↔ m ∈ matches s ∧ Match.is_live m = true) ∧
  (∀ m, m ∈ matches s → ascii_only (Match.sport m) = true →
        (m ∈ get_football_matches s ↔ ascii_lower (Match.sport m) = "football") ∧
        (m ∈ get_cricket_matches s ↔ ascii_lower (Match.sport m) = "cricket")).
Proof.
  unfold get_football_matches, get_cricket_matches, get_live_matches.
  split_and!; try apply filter_sublist.
  - intros m [_ Hf%String.eqb_eq]%elem_of_filter_bool [_ Hc%String.eqb_eq]%elem_of_filter_bool.
    congruence.
  - apply filter_disjoint_length. intros m ->%String.eqb_eq. done.
  - intros m. apply elem_of_filter_bool.
  - intros m Hm Hascii. rewrite !elem_of_filter_bool, !String.eqb_eq.
    rewrite (py_lower_ascii _ Hascii). tauto.
Qed.

(** Without a parser the summary is a 404; with one it holds the size of
    the Dataset, the sizes of the three views, and the league summary:
    football and cricket together and the live matches are at most the
    total, and the league counts add up to the total. *)
Theorem summary_counts :
  main.get_summary None = main.no_data ∧
  ∀ p, ∃ sm,
    main.get_summary (Some p) = main.Return sm ∧
    main.total_matches sm = length (matches p) ∧
    main.football_matches sm = length (get_football_matches p) ∧
    main.cricket_matches sm = length (get_cricket_matches p) ∧
    main.live_matches sm = length (get_live_matches p) ∧
    (main.football_matches sm + main.cricket_matches sm ≤ main.total_matches sm)%nat ∧
    (main.live_matches sm ≤ main.total_matches sm)%nat ∧
    sum_list_with snd (main.popular_leagues sm) = main.total_matches sm ∧
    main.get_leagues (Some p) = main.Return (main.popular_leagues sm).
Proof.
  split; [done|]. intros p. eexists. split; [done|]. cbn.
  split_and!; try done.
  - apply filter_disjoint_length. intros m ->%String.eqb_eq. done.
  - apply filter_length_le.
  - unfold get_popular_leagues. by rewrite sorted_desc_perm, league_counts_sum.
Qed.

(** The filters of [get_matches], one after the other, are one filter
    by [wanted]. *)
Lemma get_matches_fused (p : self) (sport : option string) (live_only : bool)
    (min_odds : option float) (limit : Z) :
  main.get_matches (Some p) sport live_only min_odds limit =
  main.Return (slice_to (List.filter (wanted sport live_only min_odds) (matches p)) limit).
Proof.
  unfold main.get_matches, wanted. f_equal. f_equal.
  rewrite <- !filter_filter_and.
  destruct sport as [sp|]; [destruct (negb (String.eqb sp ""))|];
    destruct live_only; destruct min_odds as [t|];
    try destruct (negb (PrimFloat.eqb t 0)); by rewrite ?filter_true.
Qed.

(** [get_matches] returns matches of the Dataset in their order, each
    of which passes every filter that is set; at most [limit] of them for a
    limit that is not negative, and all but the last [-limit] of those
    that pass for a negative one; with a limit of at least the size of
    the Dataset it returns every match that passes. *)
Theorem get_matches_selects (p : self) (sport : option string) (live_only : bool)
    (min_odds : option float) (limit : Z) :
  ∃ l passing,
    main.get_matches (Some p) sport live_only min_odds limit = main.Return l ∧
    l `prefix_of` passing ∧ sublist passing (matches p) ∧
    (∀ m, m ∈ passing ↔ m ∈ matches p ∧ wanted sport live_only min_odds m = true) ∧
    (∀ m, m ∈ l →
       (∀ sp, sport = Some sp → sp ≠ "" →
              py_lower (Match.sport m) = py_lower sp) ∧
       (live_only = true → Match.is_live m = true) ∧
       (∀ t, min_odds = Some t → PrimFloat.eqb t 0 = false →
             any_good_odds t m = true)) ∧
    length l =
      (if (0 <=? limit)%Z then Z.to_nat limit `min` length passing
       else length passing - Z.to_nat (- limit))%nat ∧
    (Z.of_nat (length (matches p)) ≤ limit → l = passing).
Proof.
  eexists _, _. split; [apply get_matches_fused|].
  split_and!.
  - unfold slice_to. destruct (0 <=? limit); apply prefix_take.
  - apply filter_sublist.
  - intros m. apply elem_of_filter_bool.
  - intros m Hm.
    pose proof (elem_of_sublist _ _ _ Hm (slice_to_sublist _ _)) as Hm'.
    clear Hm. apply elem_of_filter_bool in Hm' as [_ Hw]. unfold wanted in Hw.
    apply andb_true_iff in Hw as [[Hs Hl]%andb_true_iff Ho]. split_and!.
    + intros sp -> Hsp. apply String.eqb_neq in Hsp. rewrite Hsp in Hs.
      by apply String.eqb_eq.
    + by intros ->.
    + intros t -> Ht. by rewrite Ht in Ho.
  - apply slice_to_length.
  - intros Hle. apply slice_to_all.
    pose proof (filter_length_le (wanted sport live_only min_odds) (matches p)). lia.
Qed.

(** A filter of [get_matches] that is not given, or is given as the
    empty string, [False] or zero, filters nothing; with one filter and
    a limit that cuts nothing the endpoint returns the parser's view:
    the football, the cricket and the live matches, and those with good
    odds for a threshold other than zero. *)
Theorem get_matches_and_views (p : self) (limit : Z) :
  main.get_matches (Some p) None false None limit
    = main.Return (slice_to (matches p) limit) ∧
  main.get_matches (Some p) (Some "") false (Some 0%float) limit
    = main.get_matches (Some p) None false None limit ∧
  main.get_matches (Some p) None false (Some (-0)%float) limit
    = main.get_matches (Some p) None false None limit ∧
  (Z.of_nat (length (matches p)) ≤ limit →
     main.get_matches (Some p) (Some "football") false None limit
       = main.Return (get_football_matches p) ∧
     main.get_matches (Some p) (Some "FOOTBALL") false None limit
       = main.Return (get_football_matches p) ∧
     main.get_matches (Some p) (Some "cricket") false None limit
       = main.Return (get_cricket_matches p) ∧
     main.get_matches (Some p) None true None limit
       = main.Return (get_live_matches p) ∧
     ∀ t, PrimFloat.eqb t 0 = false →
          main.get_matches (Some p) None false (Some t) limit
            = main.Return (get_matches_with_good_odds p t)).
Proof.
  split_and!; try done.
  intros Hle.
  assert (Hall : ∀ f : Match → bool,
            slice_to (List.filter f (matches p)) limit = List.filter f (matches p)).
  { intros f. apply slice_to_all. pose proof (filter_length_le f (matches p)). lia. }
  unfold main.get_matches, get_football_matches, get_cricket_matches,
    get_live_matches, get_matches_with_good_odds.
  split_and!.
  - cbn [String.eqb Ascii.eqb negb]. cbn -[py_lower slice_to]. by rewrite Hall, lower_football.
  - cbn -[py_lower slice_to]. rewrite Hall. rewrite (py_lower_ascii "FOOTBALL") by done. done.
  - cbn -[py_lower slice_to]. by rewrite Hall, lower_cricket.
  - by rewrite Hall.
  - intros t ->. cbn [negb]. by rewrite Hall.
Qed.

End views.

Lemma find_first {A} (f : A → bool) (l : list A) (x : A) :
  List.find f l = Some x ↔
  ∃ i, l !! i = Some x ∧ f x = true ∧ ∀ j y, (j < i)%nat → l !! j = Some y → f y = false.
Proof.
  induction l as [|a l IH]; cbn.
  - split; [done|]. by intros (i & Hi & _).
  - destruct (f a) eqn:Hfa.
    + split.
      * intros [= <-]. exists 0%nat. split_and!; [done..|]. intros; lia.
      * intros ([|i] & Hi & Hx & Hfirst).
        -- cbn in Hi. congruence.
        -- specialize (Hfirst 0%nat a). cbn in Hfirst.
           rewrite Hfirst in Hfa by (done || lia). done.
    + rewrite IH. split.
      * intros (i & Hi & Hx & Hfirst). exists (S i). split_and!; [done..|].
        intros [|j] y Hj Hy; cbn in Hy; [congruence|]. apply (Hfirst j); [lia|done].
      * intros ([|i] & Hi & Hx & Hfirst); cbn in Hi; [congruence|].
        exists i. split_and!; [done..|].
        intros j y Hj Hy. apply (Hfirst (S j)); [lia|done].
Qed.

(** [get_match] returns the first match of the Dataset with the asked
    id; it answers 404 "Match not found" exactly when the Dataset has no
    match with that id, and 404 "No data available" without a parser. *)
Theorem get_match_first (p : self) (match_id : Z) :
  main.get_match None match_id = main.no_data ∧
  (∀ m, main.get_match (Some p) match_id = main.Return m ↔
        ∃ i, matches p !! i = Some m ∧ Match.id m = match_id ∧
             ∀ j m', (j < i)%nat → matches p !! j = Some m' → Match.id m' ≠ match_id) ∧
  (∀ e, main.get_match (Some p) match_id = main.RaiseHTTP e ↔
        e = main.new_exception 404 "Match not found" ∧
        ∀ m, m ∈ matches p → Match.id m ≠ match_id).
Proof.
  split; [done|]. unfold main.get_match.
  assert (Hfirst : ∀ m,
    List.find (λ m, Match.id m =? match_id) (matches p) = Some m ↔
    ∃ i, matches p !! i = Some m ∧ Match.id m = match_id ∧
         ∀ j m', (j < i)%nat → matches p !! j = Some m' → Match.id m' ≠ match_id).
  { intros m. rewrite find_first. split.
    - intros (i & Hi & Hid%Z.eqb_eq & Hbefore). exists i. split_and!; [done..|].
      intros j m' Hj Hm'. apply Z.eqb_neq. by apply (Hbefore j).
    - intros (i & Hi & Hid%Z.eqb_eq & Hbefore). exists i. split_and!; [done..|].
      intros j m' Hj Hm'. apply Z.eqb_neq. by apply (Hbefore j). }
  destruct (List.find _ _) as [m0|] eqn:Hfind; split.
  - intros m. rewrite <- Hfirst. split; congruence.
  - intros e. split; [done|]. intros [_ Hnone].
    apply find_some in Hfind as [Hin Hid]. apply list_elem_of_In in Hin.
    apply Z.eqb_eq in Hid. by apply Hnone in Hin.
  - intros m. rewrite <- Hfirst. done.
  - intros e. split.
    + intros [= <-]. split; [done|]. intros m Hm%list_elem_of_In.
      apply Z.eqb_neq. by apply (find_none _ _ Hfind).
    + by intros [-> _].
Qed.

(** * Instances *)

Lemma present_fields_pass_through_witness :
  ∃ m w',
    @_parse_single_match plain (JDict full_fields) sample_world = (Ok m, w') ∧
    Match.id m = 7 ∧ Match.sport m = "Football" ∧
    Team.name (Match.away_team m) = "B" ∧ Match.event_count m = 42 ∧
    Match.is_live m = true.
Proof.
  eexists _, _. split; [vm_compute; reflexivity|].
  destruct (@present_fields_pass_through plain full_fields sample_world _ _
              ltac:(vm_compute; reflexivity))
    as (_ & HI & _ & HSE & _ & _ & _ & _ & H2 & _ & HEC & HSS).
  split_and!.
  - apply HI. reflexivity.
  - apply HSE. reflexivity.
  - apply H2. reflexivity.
  - apply HEC. reflexivity.
  - apply HSS. eexists. split; reflexivity.
Defined.

Lemma team_image_decoding_witness :
  ∃ m w',
    @_parse_single_match plain (JDict full_fields) sample_world = (Ok m, w') ∧
    Team.image (Match.home_team m) = Some "a.png" ∧
    Team.image (Match.away_team m) = None.
Proof.
  eexists _, _. split; [vm_compute; reflexivity|].
  destruct (@team_image_decoding plain full_fields sample_world _ _
              ltac:(vm_compute; reflexivity)) as (_ & H1 & H2 & _).
  split.
  - apply (H1 "a.png" [JStr "a2.png"]). reflexivity.
  - apply H2. reflexivity.
Defined.

Lemma venue_stage_decoding_witness :
  ∃ m w',
    @_parse_single_match plain (JDict full_fields) sample_world = (Ok m, w') ∧
    Match.venue m = Some "Anfield" ∧ Match.stage m = None.
Proof.
  eexists _, _. split; [vm_compute; reflexivity|].
  destruct (@venue_stage_decoding plain full_fields sample_world _ _
              ltac:(vm_compute; reflexivity)) as (_ & Hinfo).
  destruct Hinfo as (info & Hmio & _ & Hloc & Htst & _); [reflexivity|].
  injection Hmio as <-. split.
  - apply Hloc. reflexivity.
  - apply Htst. reflexivity.
Defined.

Lemma probabilities_never_populated_witness :
  ∃ m w' p,
    @_parse_single_match plain (JDict full_fields) sample_world = (Ok m, w') ∧
    full_fields !! "WP" =
      Some (obj [("P1", JFloat 0.5); ("PX", JFloat 0.25); ("P2", JFloat 0.25)]) ∧
    Match.probabilities m = Some p ∧
    WinProbabilities.home_win p = None ∧ WinProbabilities.draw p = None ∧
    WinProbabilities.away_win p = None.
Proof.
  eexists _, _, _. split; [vm_compute; reflexivity|].
  split; [reflexivity|]. split; [reflexivity|].
  eapply (@probabilities_never_populated plain full_fields sample_world);
    [vm_compute|]; reflexivity.
Defined.

Lemma null_field_witness :
  @_parse_single_match plain (JDict (<["MIO" := JNull]> full_fields)) sample_world =
    @_parse_single_match plain (JDict (delete "MIO" full_fields)) sample_world ∧
  @fails plain (JDict (<["LE" := JNull]> full_fields)).
Proof.
  destruct (@null_field plain full_fields sample_world) as [Hsame Hfails].
  split.
  - apply Hsame. in_list.
  - apply Hfails. in_list.
Defined.

Lemma market_entry_decoding_witness :
  ∃ mk,
    @additional_market plain
      (obj [("G", JInt 17)])
      (obj [("T", JInt 7); ("C", JFloat 1.75); ("P", JFloat 0.5)]) = Ok mk ∧
    Market.type mk = 17 ∧ Market.outcome mk = 7 ∧ Market.parameter mk = Some 0.5%float ∧
    @additional_market plain
      (obj [("G", JInt 17)])
      (JDict (<["G" := JInt 1]>
                (list_to_map [("T", JInt 7); ("C", JFloat 1.75); ("P", JFloat 0.5)]))) = Ok mk.
Proof.
  eexists. split; [vm_compute; reflexivity|].
  destruct (@market_entry_decoding plain (list_to_map [("G", JInt 17)])
              (list_to_map [("T", JInt 7); ("C", JFloat 1.75); ("P", JFloat 0.5)]))
    as (_ & Hadd & _).
  edestruct Hadd as [(_ & Hg & _ & Ht & _ & _ & _ & Hp) Hown]; [vm_compute; reflexivity|].
  split_and!.
  - apply Hg. reflexivity.
  - apply Ht. reflexivity.
  - apply Hp. reflexivity.
  - apply Hown.
Defined.

Lemma weather_last_entry_wins_witness :
  ∃ wt,
    @_parse_weather plain (JList sample_weather) = Ok (Some wt) ∧
    last_value 9 sample_weather = Some (JStr "25") ∧
    Ok (Some "25") = Ok (Weather.temperature wt) ∧
    Ok (Some "Sunny") = Ok (Weather.condition wt) ∧
    Ok None = Ok (Weather.humidity wt).
Proof.
  eexists. split; [vm_compute; reflexivity|]. split; [reflexivity|].
  destruct (@weather_last_entry_wins plain sample_weather _
              ltac:(vm_compute; reflexivity)) as (Ht & Hc & Hh & _).
  split_and!; [exact Ht | exact Hc | exact Hh].
Defined.


Example batch_of_mappings_run :
  ∃ ms w',
    @_parse_matches plain
      (JDict {["Value" := JList [bare_record 1; JDict {["L" := JStr "A vs B"]}; JDict ∅;
                                 bare_record 2]]})
      sample_world = (Ok ms, w') ∧
    Match.id <$> ms = [1; 2] ∧ length (stdout w') = 2%nat.
Proof. eexists _, _. split_and!; vm_compute; reflexivity. Qed.

Example parse_markets_in_order_run :
  ∃ m w',
    @_parse_single_match plain sample_record sample_world = (Ok m, w') ∧
    Market.outcome <$> Markets.match_result (Match.markets m) = [1; 2; 3] ∧
    Market.type <$> Markets.handicap (Match.markets m) = [17].
Proof. eexists _, _. split_and!; vm_compute; reflexivity. Qed.

Example sports_parser_views :
  Match.id <$> @get_football_matches ascii_casing sports_parser = [1; 3; 5] ∧
  Match.id <$> @get_cricket_matches ascii_casing sports_parser = [2] ∧
  Match.id <$> get_live_matches sports_parser = [2; 3].
Proof. split_and!; vm_compute; reflexivity. Qed.

Example sports_parser_get_matches :
  (∃ l, @main.get_matches ascii_casing (Some sports_parser) (Some "FOOTBALL") false None 2
          = main.Return l ∧ Match.id <$> l = [1; 3]) ∧
  (∃ l, @main.get_matches ascii_casing (Some sports_parser) None false None (-2)
          = main.Return l ∧ Match.id <$> l = [1; 2; 3]) ∧
  (∃ l, @main.get_matches ascii_casing (Some sports_parser) None false (Some 0%float) 100
          = main.Return l ∧ length l = 5%nat) ∧
  (∃ l, @main.get_matches ascii_casing (Some sports_parser) None false (Some 1%float) 100
          = main.Return l ∧ l = []).
Proof. split_and!; eexists; split; vm_compute; reflexivity. Qed.

Example sports_parser_get_match :
  (∃ m, main.get_match (Some sports_parser) 2 = main.Return m ∧
        Match.sport m = "CRICKET") ∧
  main.get_match (Some sports_parser) 4 =
    main.RaiseHTTP (main.new_exception 404 "Match not found").
Proof. split; [eexists; split|]; vm_compute; reflexivity. Qed.
